(** * DiscordBot: the help command and the client login lifecycle

    A shallow embedding of [structures/Client.js] (the [ClientDiscordBot]
    class: [MessageEmbed], [connect], [login], [handleError]) and of the
    help command descriptor (its [script] and [handleDescription]).

    JavaScript values are an inductive type with the language's [typeof],
    truthiness and [&&]; synchronous code returns a [completion] (normal or
    thrown), asynchronous code a [settled] promise (resolved, rejected or
    never settled); calls into external collaborators (mongoose, the
    discord.js client, the channel) are recorded in a trace of events. *)

From Stdlib Require Import String Ascii List ZArith NArith Bool Lia Permutation.
Import ListNotations.
Open Scope string_scope.

(* ================================================================== *)
(** * JavaScript values *)
(* ================================================================== *)

Module JS.

(** The values a command descriptor field can hold.  Arrays are arrays of
    strings (the only arrays the descriptors use); an object is its own
    properties in creation order.  Function values are not modelled. *)
#[local] Set Warnings "-register-all".
Inductive value : Type :=
| VUndefined
| VNull
| VBool (b : bool)
| VNum (n : Z)
| VStr (s : string)
| VArr (xs : list string)
| VObj (props : list (string * value)).

(** Errors that can be thrown or used to reject a promise. *)
Inductive error : Type :=
| TypeError (msg : string)
| Error (msg : string).

(** Outcome of synchronous code. *)
Inductive completion (A : Type) : Type :=
| Normal (a : A)
| Throw (e : error).
Arguments Normal {A} a.
Arguments Throw {A} e.

(** Outcome of an awaited promise. [Pending] is a promise that never
    settles: the [await] never returns. *)
Inductive settled (A : Type) : Type :=
| Resolved (a : A)
| Rejected (e : error)
| Pending.
Arguments Resolved {A} a.
Arguments Rejected {A} e.
Arguments Pending {A}.

(** [typeof v] *)
Definition typeof (v : value) : string :=
  match v with
  | VUndefined => "undefined"
  | VNull => "object"
  | VBool _ => "boolean"
  | VNum _ => "number"
  | VStr _ => "string"
  | VArr _ => "object"
  | VObj _ => "object"
  end.

(** ToBoolean *)
Definition truthy (v : value) : bool :=
  match v with
  | VUndefined => false
  | VNull => false
  | VBool b => b
  | VNum n => negb (Z.eqb n 0)
  | VStr s => negb (String.eqb s "")
  | VArr _ => true
  | VObj _ => true
  end.

(** [a && b]: the left operand when it is falsy, the right one otherwise. *)
Definition and_then (a b : value) : value :=
  if truthy a then b else a.

(** [v === n] for a number literal [n]. *)
Definition strict_eq_num (v : value) (n : Z) : bool :=
  match v with
  | VNum m => Z.eqb m n
  | _ => false
  end.

(** Own property lookup on an object's property list. *)
Fixpoint get_own (k : string) (props : list (string * value)) : value :=
  match props with
  | [] => VUndefined
  | (k', v) :: rest => if String.eqb k k' then v else get_own k rest
  end.

(** [v.length]: throws on [undefined] and [null]; the number of elements
    of an array, the number of code units of a string, the own property of
    an object, [undefined] on the other primitives. *)
Definition get_length (v : value) : completion value :=
  match v with
  | VUndefined => Throw (TypeError "Cannot read property 'length' of undefined")
  | VNull => Throw (TypeError "Cannot read property 'length' of null")
  | VBool _ => Normal VUndefined
  | VNum _ => Normal VUndefined
  | VStr s => Normal (VNum (Z.of_nat (String.length s)))
  | VArr xs => Normal (VNum (Z.of_nat (List.length xs)))
  | VObj props => Normal (get_own "length" props)
  end.

(** The line feed written [\n] in the source. *)
Definition LF : string := String (ascii_of_nat 10) EmptyString.

(** [Array.prototype.toString]: the elements joined with a comma. *)
Definition array_toString (xs : list string) : string :=
  String.concat "," xs.

(** [s.replace(/,/g, '')]: every comma of [s] removed. *)
Fixpoint remove_commas (s : string) : string :=
  match s with
  | EmptyString => EmptyString
  | String c rest =>
      if Ascii.eqb c ","%char then remove_commas rest
      else String c (remove_commas rest)
  end.

(** [Array.prototype.find]: the first element the callback accepts. *)
Fixpoint array_find {A : Type} (fn : A -> bool) (xs : list A) : option A :=
  match xs with
  | [] => None
  | x :: rest => if fn x then Some x else array_find fn rest
  end.

End JS.

Import JS.

(* ================================================================== *)
(** * Commands and the registry *)
(* ================================================================== *)

(** A command as the help script reads it: [name], [alias], [description],
    [group], and whatever the object answers to [.length] (line 30 of the
    help script probes it; a plain descriptor answers [undefined]). *)
Record Command : Type := mkCommand {
  name : string;
  alias : list string;
  description : value;
  group : string;
  length_prop : value
}.

(** The registry [Bot.commands]: the commands in registration order. *)
Definition Commands : Type := list Command.

(** [command.alias.find(alias => cmd === alias)]: the matched alias itself,
    or [undefined]. *)
Definition alias_find (cmd : string) (command : Command) : value :=
  match array_find (fun a => String.eqb cmd a) (alias command) with
  | Some a => VStr a
  | None => VUndefined
  end.

(** [Bot.commands.find(command => command.alias.find(alias => cmd === alias))]:
    the first command for which the callback's result is truthy. *)
Definition find_command (cmd : string) (commands : Commands) : option Command :=
  array_find (fun command => truthy (alias_find cmd command)) commands.

(** The guard of line 30,
    [!command || (command.length && command.length === 0)]. *)
Definition not_found_guard (command : option Command) : bool :=
  match command with
  | None => true
  | Some c =>
      truthy (and_then (length_prop c)
                       (VBool (strict_eq_num (length_prop c) 0)))
  end.

(** The fixed text substituted for a description that cannot be shown. *)
Definition unavailable : string :=
  "La description de cette commande ne peut pas être affichée".

(** [handleDescription (desc)] *)
Definition handleDescription (desc : value) : completion string :=
  if String.eqb (typeof desc) "object" then
    match get_length desc with
    | Throw e => Throw e
    | Normal len =>
        if negb (String.eqb (typeof len) "undefined") then
          match desc with
          | VArr ds =>
              Normal (remove_commas
                        (array_toString (map (fun d => d ++ LF) ds)))
          | _ => Throw (TypeError "desc.map is not a function")
          end
        else Normal unavailable
    end
  else
    match desc with
    | VStr s => Normal s
    | _ => Normal unavailable
    end.

(* ================================================================== *)
(** * The bot client, its collaborators and the event trace *)
(* ================================================================== *)

(** [this.user]: the logged-in account, as far as this code reads it. *)
Record ClientUser : Type := mkClientUser {
  tag : string;
  displayAvatarURL : string
}.

Record EmbedFooter : Type := mkEmbedFooter {
  text : string;
  iconUrl : string
}.

Record EmbedField : Type := mkEmbedField {
  field_name : string;
  field_value : string
}.

(** A discord.js [MessageEmbed], as the data its constructor was given
    and the fields added since; what the library makes of that data is its
    own business.  [None] is a property that is absent or [null]. *)
Record Embed : Type := mkEmbed {
  embed_title : option string;
  embed_description : option string;
  embed_color : option string;
  embed_thumbnail : option string;
  embed_timestamp : option Z;
  embed_footer : option EmbedFooter;
  embed_fields : list EmbedField
}.

(** What is passed to [emit] next to the event name. *)
Inductive payload : Type :=
| PText (s : string)
| PError (e : error).

(** The two passes of the modules registry. *)
Inductive pass : Type := Init | Start.

(** Calls into the collaborators, in the order they happen. *)
Inductive event : Type :=
| EvMongoConnect (url : string) (useNewUrlParser useUnifiedTopology : bool)
| EvAwaitOpen
| EvEmit (ev : string) (p : payload)
| EvHookCall (p : pass) (module : string)
| EvHookResolved (p : pass) (module : string)
| EvHookRejected (p : pass) (module : string) (e : error)
| EvTransportLogin (token : string)
| EvNewEmbed (data : Embed)
| EvSend (content : string) (embed : Embed)
| EvUnhandledRejection (e : error).

(** The inherited [emit]: what the call returns (whether a listener was
    registered) or throws is the emitter's business. *)
Record Emitter : Type := mkEmitter {
  emit_result : string -> payload -> completion bool
}.

(** [mongodb.connection] as [connect] reads it: its [readyState] when
    [mongoose.connect] resolves, and whether its ['open'] event ever fires. *)
Record Connection : Type := mkConnection {
  readyState : Z;
  opens : bool
}.

(** A lifecycle hook of a module: it may register commands, and its
    promise resolves, rejects or never settles. *)
Definition hook : Type := Commands -> settled unit * Commands.

Record Module : Type := mkModule {
  module_name : string;
  init : hook;
  start : hook
}.

(** The fields of the client that this code reads and never writes. *)
Record Bot : Type := mkBot {
  dev : string;
  prefix : string;
  dbname : option string;
  useNewUrlParser : bool;
  useUnifiedTopology : bool;
  emit : option Emitter;
  modules : list Module
}.

(** The options of the constructor that this code goes on to read; [None]
    is an option left out. *)
Record ClientDiscordBotOptions : Type := mkOptions {
  option_dev : option string;
  option_prefix : option string;
  option_dbname : option string
}.

(** [constructor ({ dev = 'Anonymous', prefix = '&', dbname = null, ... } = {})]:
    the defaults, and the two [dbOptions]; the emitter is the one the client
    inherits and the modules are those its registry loads. *)
Definition ClientDiscordBot (options : ClientDiscordBotOptions)
           (em : option Emitter) (ms : list Module) : Bot :=
  {| dev := match option_dev options with Some d => d | None => "Anonymous" end;
     prefix := match option_prefix options with Some p => p | None => "&" end;
     dbname := option_dbname options;
     useNewUrlParser := true; useUnifiedTopology := true;
     emit := em; modules := ms |}.

(** The fields that change: the registry, [this.db], [this.user]. *)
Record Store : Type := mkStore {
  commands : Commands;
  db : option Connection;
  user : option ClientUser
}.

(** The client as the constructor leaves it: an empty registry, [db = null],
    nobody logged in. *)
Definition constructed : Store :=
  {| commands := []; db := None; user := None |}.

(** The collaborators: mongoose, the discord.js client's own [login], the
    clock, the [title] and [description] functions of [./responses], and
    the channel a message is sent to. *)
Record Env : Type := mkEnv {
  mongoose_connect : string -> settled Connection;
  super_login : string -> settled string;
  now : Z;
  title : string -> string;
  responses_description : string -> string;
  channel_send : string -> Embed -> settled unit
}.

(** ** Asynchronous code: state, outcome and trace *)

Open Scope list_scope.

Definition async (A : Type) : Type := Store -> settled A * Store * list event.

Definition ret {A : Type} (a : A) : async A :=
  fun st => (Resolved a, st, []).

(** [await m] followed by [k]: a rejection or a promise that never settles
    ends the chain there. *)
Definition bind {A B : Type} (m : async A) (k : A -> async B) : async B :=
  fun st =>
    match m st with
    | (Resolved a, st1, t1) =>
        match k a st1 with
        | (r, st2, t2) => (r, st2, t1 ++ t2)
        end
    | (Rejected e, st1, t1) => (Rejected e, st1, t1)
    | (Pending, st1, t1) => (Pending, st1, t1)
    end.

Definition log (ev : event) : async unit :=
  fun st => (Resolved tt, st, [ev]).

Definition settle {A : Type} (r : settled A) : async A :=
  fun st => (r, st, []).

(** [p.catch(error => { throw error })]: the rejection is thrown again. *)
Definition catch_rethrow {A : Type} (m : async A) : async A :=
  fun st =>
    match m st with
    | (Rejected e, st1, t1) => (Rejected e, st1, t1)
    | other => other
    end.

Declare Scope async_scope.
Delimit Scope async_scope with async.
Notation "x <- m ;; k" := (bind m (fun x => k))
  (at level 61, m at next level, right associativity) : async_scope.
Notation "m ;; k" := (bind m (fun _ => k))
  (at level 61, right associativity) : async_scope.

(** ** Synchronous code: completion and trace *)

Definition sync (A : Type) : Type := completion A * list event.

Definition sret {A : Type} (a : A) : sync A := (Normal a, []).

Definition sbind {A B : Type} (m : sync A) (k : A -> sync B) : sync B :=
  match m with
  | (Normal a, t1) =>
      match k a with
      | (c, t2) => (c, t1 ++ t2)
      end
  | (Throw e, t1) => (Throw e, t1)
  end.

Definition slog (ev : event) : sync unit := (Normal tt, [ev]).

Definition lift {A : Type} (c : completion A) : sync A := (c, []).

Declare Scope sync_scope.
Delimit Scope sync_scope with sync.
Notation "x <- m ;; k" := (sbind m (fun x => k))
  (at level 61, m at next level, right associativity) : sync_scope.
Notation "m ;; k" := (sbind m (fun _ => k))
  (at level 61, right associativity) : sync_scope.

Definition of_sync {A : Type} (m : sync A) : async A :=
  fun st =>
    match m with
    | (Normal a, t) => (Resolved a, st, t)
    | (Throw e, t) => (Rejected e, st, t)
    end.

(** [Array.prototype.map] with a callback that may throw: the elements are
    visited in order and the first exception ends the loop. *)
Fixpoint array_map {A B : Type} (fn : A -> sync B) (xs : list A) : sync (list B) :=
  match xs with
  | [] => sret []
  | x :: rest =>
      (y <- fn x ;;
       ys <- array_map fn rest ;;
       sret (y :: ys))%sync
  end.

(* ================================================================== *)
(** * structures/Client.js *)
(* ================================================================== *)

(** [this.emit(ev, p)]: a [TypeError] when there is no [emit] to call. *)
Definition call_emit (bot : Bot) (ev : string) (p : payload) : sync bool :=
  match emit bot with
  | None => lift (Throw (TypeError "this.emit is not a function"))
  | Some em => (slog (EvEmit ev p) ;; lift (emit_result em ev p))%sync
  end.

(** [handleError (error)] *)
Definition handleError (bot : Bot) (error : error) : sync bool :=
  match emit bot with
  | None => lift (Throw error)
  | Some _ => call_emit bot "error" (PError error)
  end.

(** The value of an optional string property, for a truthiness test. *)
Definition string_or_null (o : option string) : value :=
  match o with
  | None => VNull
  | Some s => VStr s
  end.

(** A property of the object a caller passes to [MessageEmbed]: left out,
    set to [null] (or [undefined]), or set to a value. *)
Inductive property (A : Type) : Type :=
| Absent
| Null
| Given (a : A).
Arguments Absent {A}.
Arguments Null {A}.
Arguments Given {A} a.

(** The [data] argument of [MessageEmbed]. *)
Record EmbedData : Type := mkEmbedData {
  data_title : property string;
  data_description : property string;
  data_color : property string;
  data_thumbnail : property string;
  data_timestamp : property Z;
  data_footer : property EmbedFooter;
  data_fields : list EmbedField
}.

(** One property of [Object.assign(defaults, data)]: the caller's own when
    [data] has the property, be it [null]; the default otherwise. *)
Definition assigned {A : Type} (given : property A) (dflt : option A)
  : option A :=
  match given with
  | Absent => dflt
  | Null => None
  | Given a => Some a
  end.

(** The object handed to the [MessageEmbed] constructor:
    [Object.assign({ title: null, ..., footer: {...} }, data)] for a
    logged-in client, [data] itself otherwise. *)
Definition with_defaults (bot : Bot) (env : Env) (st : Store)
           (data : EmbedData) : Embed :=
  match user st with
  | Some u =>
      {| embed_title := assigned (data_title data) None;
         embed_description := assigned (data_description data) None;
         embed_color := assigned (data_color data) (Some "RANDOM");
         embed_thumbnail :=
           assigned (data_thumbnail data) (Some (displayAvatarURL u));
         embed_timestamp := assigned (data_timestamp data) (Some (now env));
         embed_footer :=
           assigned (data_footer data)
             (Some {| text := (tag u ++ " | " ++ dev bot)%string;
                      iconUrl := displayAvatarURL u |});
         embed_fields := data_fields data |}
  | None =>
      {| embed_title := assigned (data_title data) None;
         embed_description := assigned (data_description data) None;
         embed_color := assigned (data_color data) None;
         embed_thumbnail := assigned (data_thumbnail data) None;
         embed_timestamp := assigned (data_timestamp data) None;
         embed_footer := assigned (data_footer data) None;
         embed_fields := data_fields data |}
  end.

(** [MessageEmbed (data = {})]: the defaults are filled in, then the embed
    is constructed from the result. *)
Definition MessageEmbed (bot : Bot) (env : Env) (st : Store)
           (data : EmbedData) : sync Embed :=
  let data' := with_defaults bot env st data in
  (slog (EvNewEmbed data') ;; sret data')%sync.

Definition set_db (c : Connection) : async unit :=
  fun st =>
    (Resolved tt,
     {| commands := commands st; db := Some c; user := user st |}, []).

Definition get_db : async (option Connection) :=
  fun st => (Resolved (db st), st, []).

(** [`mongodb://localhost:27017/${this.dbname}`] *)
Definition mongo_url (n : string) : string :=
  ("mongodb://localhost:27017/" ++ n)%string.

(** [connect ()] *)
Definition connect (bot : Bot) (env : Env) : async (option Connection) :=
  if negb (truthy (string_or_null (dbname bot))) then ret None
  else
    let url :=
      mongo_url (match dbname bot with Some n => n | None => "null" end) in
    (mongodb <- catch_rethrow
                  (log (EvMongoConnect url (useNewUrlParser bot)
                                       (useUnifiedTopology bot)) ;;
                   settle (mongoose_connect env url)) ;;
     set_db mongodb ;;
     (if negb (Z.eqb (readyState mongodb) 1)
      then log EvAwaitOpen ;;
           settle (if opens mongodb then Resolved true else Pending)
      else ret true) ;;
     of_sync (call_emit bot "debug" (PText "[DiscordBot] Mongodb connected")) ;;
     get_db)%async.

(** Modelled from the spec: one hook call of the modules registry
    ([structures/Modules.js] is not among the sources).  Section 4.2: [init()] "invokes each module's
    [init] hook strictly in registration order, awaiting full completion of
    one before starting the next"; "any hook failing aborts the whole
    sequence and propagates the error to the caller"; [start()] does the
    same with the [start] hooks. *)
Definition run_hook (p : pass) (m : Module) : async unit :=
  fun st =>
    match (match p with Init => init m | Start => start m end) (commands st) with
    | (r, cs) =>
        (r,
         {| commands := cs; db := db st; user := user st |},
         EvHookCall p (module_name m) ::
         match r with
         | Resolved _ => [EvHookResolved p (module_name m)]
         | Rejected e => [EvHookRejected p (module_name m) e]
         | Pending => []
         end)
    end.

(** Modelled from the spec: one pass of the modules registry over its
    modules (section 4.2, as above): the hooks one after the other, in
    registration order, stopping at the first that does not resolve. *)
Fixpoint run_hooks (p : pass) (ms : list Module) : async unit :=
  match ms with
  | [] => ret tt
  | m :: rest => (run_hook p m ;; run_hooks p rest)%async
  end.

(** Modelled from the spec: [this.modules.init()], the [init] pass
    (section 4.2; [structures/Modules.js] is not among the sources). *)
Definition Modules_init (bot : Bot) : async unit := run_hooks Init (modules bot).

(** Modelled from the spec: [this.modules.start()], the [start] pass
    (section 4.2; [structures/Modules.js] is not among the sources). *)
Definition Modules_start (bot : Bot) : async unit := run_hooks Start (modules bot).

(** [login (token)] *)
Definition login (bot : Bot) (env : Env) (token : string) : async string :=
  (catch_rethrow (connect bot env) ;;
   Modules_init bot ;;
   Modules_start bot ;;
   (log (EvTransportLogin token) ;; settle (super_login env token)))%async.

(* ================================================================== *)
(** * The commands registry's grouping *)
(* ================================================================== *)

(** A plain object used as a map from group name to commands: the
    properties in creation order, no key twice. *)
Definition Groups : Type := list (string * list Command).

(** Modelled from the spec: one step of [regroup]'s pass (section 4.1): the
    command goes to the end of its group, and a group name met for the first
    time starts a new group after the existing ones. *)
Fixpoint group_add (c : Command) (groups : Groups) : Groups :=
  match groups with
  | [] => [(group c, [c])]
  | (g, cs) :: rest =>
      if String.eqb g (group c) then (g, cs ++ [c]) :: rest
      else (g, cs) :: group_add c rest
  end.

(** Modelled from the spec: [Commands.regroup] ([structures/Commands.js] is
    not among the sources).  Section 4.1: it "produces a mapping from group
    name to ordered sequence of Command, built by a single pass over the
    registry in insertion order; group key absent -> behavior is to start a
    new group on first occurrence". *)
Definition regroup (registry : Commands) : Groups :=
  fold_left (fun groups c => group_add c groups) registry [].

(** [groups[groupName]] *)
Fixpoint get_group (groupName : string) (groups : Groups) : option (list Command) :=
  match groups with
  | [] => None
  | (g, cs) :: rest =>
      if String.eqb groupName g then Some cs else get_group groupName rest
  end.

(** ** [Object.keys]: array indices first, ascending, then the other keys in
    creation order *)

Fixpoint decimal (s : string) (acc : N) : option N :=
  match s with
  | EmptyString => Some acc
  | String c rest =>
      let d := N_of_ascii c in
      if (N.leb 48 d && N.leb d 57)%bool
      then decimal rest (acc * 10 + (d - 48))%N
      else None
  end.

(** The canonical decimal strings below [2^32 - 1]. *)
Definition array_index (s : string) : option N :=
  match s with
  | EmptyString => None
  | String c rest =>
      if (Ascii.eqb c "0"%char && negb (String.eqb rest ""))%bool then None
      else
        match decimal s 0%N with
        | Some n => if N.ltb n 4294967295 then Some n else None
        | None => None
        end
  end.

Fixpoint insert_index (k : N * string) (ks : list (N * string)) : list (N * string) :=
  match ks with
  | [] => [k]
  | k' :: rest =>
      if N.leb (fst k) (fst k') then k :: ks else k' :: insert_index k rest
  end.

Fixpoint index_keys (ks : list string) : list (N * string) :=
  match ks with
  | [] => []
  | k :: rest =>
      match array_index k with
      | Some n => insert_index (n, k) (index_keys rest)
      | None => index_keys rest
      end
  end.

Definition is_index (k : string) : bool :=
  match array_index k with
  | Some _ => true
  | None => false
  end.

Definition Object_keys {A : Type} (o : list (string * A)) : list string :=
  let ks := map fst o in
  map snd (index_keys ks) ++ filter (fun k => negb (is_index k)) ks.

(* ================================================================== *)
(** * The help command *)
(* ================================================================== *)

(** [{ name: command.name, value: `${d}\nCommandes: [...]` }], where [d] is
    the formatted description. *)
Definition help_entry (command : Command) (d : string) : EmbedField :=
  {| field_name := name command;
     field_value :=
       (d ++ LF ++ "Commandes: [``" ++ array_toString (alias command)
          ++ "``]")%string |}.

(** The entry of one command in an embed (lines 18-21 and 31-34). *)
Definition help_field (command : Command) : sync EmbedField :=
  (d <- lift (handleDescription (description command)) ;;
   sret (help_entry command d))%sync.

(** [embed.addFields(fields)] *)
Definition addFields (embed : Embed) (fields : list EmbedField) : Embed :=
  {| embed_title := embed_title embed;
     embed_description := embed_description embed;
     embed_color := embed_color embed;
     embed_thumbnail := embed_thumbnail embed;
     embed_timestamp := embed_timestamp embed;
     embed_footer := embed_footer embed;
     embed_fields := embed_fields embed ++ fields |}.

(** [Bot.user.tag] *)
Definition user_tag (st : Store) : sync string :=
  match user st with
  | Some u => sret (tag u)
  | None => lift (Throw (TypeError "Cannot read property 'tag' of null"))
  end.

(** [{ title: ..., description: ... }] *)
Definition embed_data (t d : string) : EmbedData :=
  {| data_title := Given t; data_description := Given d;
     data_color := Absent; data_thumbnail := Absent; data_timestamp := Absent;
     data_footer := Absent; data_fields := [] |}.

(** The embed the one-argument branch starts from (line 28). *)
Definition help_shell (bot : Bot) (env : Env) (st : Store) (u : ClientUser)
  : Embed :=
  with_defaults bot env st
    (embed_data (title env (tag u)) (responses_description env (prefix bot))).

(** The synchronous body of [script]; [member] is the text of
    [`${message.member}`].  The promise of a [send] is not awaited. *)
Definition script_body (bot : Bot) (env : Env) (st : Store)
           (member : string) (args : list string) : sync unit :=
  match args with
  | [] =>
      let groups := regroup (commands st) in
      (array_map
         (fun groupName =>
            let group := get_group groupName groups in
            t <- user_tag st ;;
            embed <- MessageEmbed bot env st
                       (embed_data
                          (title env (t ++ ", Section: " ++ groupName)%string)
                          (responses_description env (prefix bot))) ;;
            fields <- match group with
                      | Some cs => array_map help_field cs
                      | None =>
                          lift (Throw (TypeError
                                  "Cannot read property 'map' of undefined"))
                      end ;;
            slog (EvSend member (addFields embed fields)))
         (Object_keys groups) ;;
       sret tt)%sync
  | cmd :: _ =>
      (t <- user_tag st ;;
       embed <- MessageEmbed bot env st
                  (embed_data (title env t)
                              (responses_description env (prefix bot))) ;;
       let command := find_command cmd (commands st) in
       if not_found_guard command then sret tt
       else
         match command with
         | None => sret tt
         | Some c =>
             f <- help_field c ;;
             slog (EvSend member (addFields embed [f]))
         end)%sync
  end.

(** [.catch(error => Bot.handleError(error))] on the promise of one [send]:
    a rejection goes to [handleError]; what [handleError] throws rejects a
    promise nobody holds. *)
Definition send_reaction (bot : Bot) (env : Env) (ev : event) : list event :=
  match ev with
  | EvSend content embed =>
      match channel_send env content embed with
      | Rejected e =>
          match handleError bot e with
          | (Normal _, t) => t
          | (Throw e', t) => t ++ [EvUnhandledRejection e']
          end
      | _ => []
      end
  | _ => []
  end.

(** One run of a handler: how its promise settles, what its body did, and
    what the reactions to its unawaited promises did afterwards. *)
Record Run : Type := mkRun {
  outcome : settled unit;
  body : list event;
  later : list event
}.

(** [script] of the help command: an [async] function without [await]. *)
Definition script (bot : Bot) (env : Env) (st : Store)
           (member : string) (args : list string) : Run :=
  match script_body bot env st member args with
  | (c, t) =>
      {| outcome := match c with
                    | Normal _ => Resolved tt
                    | Throw e => Rejected e
                    end;
         body := t;
         later := flat_map (send_reaction bot env) t |}
  end.

(** The collaborators with another channel: everything but what a [send]
    answers is as before. *)
Definition with_channel (env : Env)
           (send : string -> Embed -> settled unit) : Env :=
  {| mongoose_connect := mongoose_connect env;
     super_login := super_login env;
     now := now env;
     title := title env;
     responses_description := responses_description env;
     channel_send := send |}.

(** An embed's properties seen as the data of a new one: an absent or
    [null] property is passed as [null]. *)
Definition as_data (e : Embed) : EmbedData :=
  let pass {A : Type} (o : option A) : property A :=
    match o with
    | Some a => Given a
    | None => Null
    end in
  {| data_title := pass (embed_title e);
     data_description := pass (embed_description e);
     data_color := pass (embed_color e);
     data_thumbnail := pass (embed_thumbnail e);
     data_timestamp := pass (embed_timestamp e);
     data_footer := pass (embed_footer e);
     data_fields := embed_fields e |}.

(* ================================================================== *)
(** * The specification's reading of the operations *)
(* ================================================================== *)

(** Section 4.1, [findByAlias(token)]: "the first Command whose alias set
    contains [token] (exact, case-sensitive match), or not found". *)
Definition spec_findByAlias (token : string) (registry : Commands) : option Command :=
  List.find (fun c => existsb (String.eqb token) (alias c)) registry.

(** Section 4.4: a sequence of strings is "joined with line breaks". *)
Definition spec_join_lines (ds : list string) : string :=
  String.concat LF ds.

(** What the formatting does to a sequence: every element, without its
    commas, followed by a line break. *)
Definition lines (ds : list string) : string :=
  String.concat "" (map (fun d => (remove_commas d ++ LF)%string) ds).

(** [true] when a string has no comma. *)
Definition comma_free (s : string) : bool :=
  String.eqb (remove_commas s) s.

(** The events of a given kind in a trace. *)
Definition is_send (ev : event) : bool :=
  match ev with EvSend _ _ => true | _ => false end.

Definition is_new_embed (ev : event) : bool :=
  match ev with EvNewEmbed _ => true | _ => false end.

(** Phases of [login], for classifying the events of its trace. *)
Definition db_event (ev : event) : bool :=
  match ev with
  | EvMongoConnect _ _ _ | EvAwaitOpen | EvEmit _ _ => true
  | _ => false
  end.

Definition hook_event (p : pass) (ev : event) : bool :=
  match ev, p with
  | EvHookCall Init _, Init
  | EvHookResolved Init _, Init
  | EvHookRejected Init _ _, Init => true
  | EvHookCall Start _, Start
  | EvHookResolved Start _, Start
  | EvHookRejected Start _ _, Start => true
  | _, _ => false
  end.

Definition auth_event (ev : event) : bool :=
  match ev with
  | EvTransportLogin _ => true
  | _ => false
  end.

(** The events of a hook that is called and resolves. *)
Definition hook_ok (p : pass) (m : Module) : list event :=
  [EvHookCall p (module_name m); EvHookResolved p (module_name m)].

(** The fixtures of the examples: the registry of the specification's
    scenario, a command whose alias list holds the empty string, a
    logged-in store and collaborators that answer. *)
Module Fixture.

Definition Help : Command :=
  {| name := "Help"; alias := ["h"; "help"];
     description := VArr ["general help"; "help for one command"];
     group := "help"; length_prop := VUndefined |}.

Definition Ping : Command :=
  {| name := "Ping"; alias := ["p"];
     description := VStr "pong"; group := "util";
     length_prop := VUndefined |}.

Definition Blank : Command :=
  {| name := "Blank"; alias := [""; "b"];
     description := VStr "blank"; group := "util";
     length_prop := VUndefined |}.

Definition Broken : Command :=
  {| name := "Broken"; alias := ["k"];
     description := VNull; group := "util";
     length_prop := VUndefined |}.

Definition listening : Emitter :=
  {| emit_result := fun _ _ => Normal true |}.

Definition account : ClientUser :=
  {| tag := "bot#0001"; displayAvatarURL := "avatar.png" |}.

Definition store (cs : Commands) : Store :=
  {| commands := cs; db := None; user := Some account |}.

Definition quiet (m : string) : Module :=
  {| module_name := m;
     init := fun cs => (Resolved tt, cs);
     start := fun cs => (Resolved tt, cs) |}.

Definition failing (m : string) : Module :=
  {| module_name := m;
     init := fun cs => (Rejected (Error "init failed"), cs);
     start := fun cs => (Resolved tt, cs) |}.

Definition env_ok : Env :=
  {| mongoose_connect := fun _ => Resolved {| readyState := 1; opens := true |};
     super_login := fun token => Resolved token;
     now := 0;
     title := fun s => s;
     responses_description := fun s => s;
     channel_send := fun _ _ => Resolved tt |}.

Definition env_down : Env :=
  {| mongoose_connect := fun _ => Rejected (Error "ECONNREFUSED");
     super_login := fun token => Resolved token;
     now := 0;
     title := fun s => s;
     responses_description := fun s => s;
     channel_send := fun _ _ => Rejected (Error "Missing Permissions") |}.

Definition bot (db : option string) (ms : list Module) : Bot :=
  ClientDiscordBot
    {| option_dev := None; option_prefix := None; option_dbname := db |}
    (Some listening) ms.

End Fixture.

(* ================================================================== *)
(** * The help command without an argument, group by group *)
(* ================================================================== *)

(** The embed a group's display starts from (line 16). *)
Definition group_shell (bot : Bot) (env : Env) (st : Store) (u : ClientUser)
           (groupName : string) : Embed :=
  with_defaults bot env st
    (embed_data (title env (tag u ++ ", Section: " ++ groupName)%string)
                (responses_description env (prefix bot))).

(** The callback of [Object.keys(groups).map] (lines 14-25) for one group
    name, over whatever object [regroup()] returned. *)
Definition help_group (bot : Bot) (env : Env) (st : Store) (member : string)
           (groups : Groups) (groupName : string) : sync unit :=
  let group := get_group groupName groups in
  (t <- user_tag st ;;
   embed <- MessageEmbed bot env st
              (embed_data
                 (title env (t ++ ", Section: " ++ groupName)%string)
                 (responses_description env (prefix bot))) ;;
   fields <- match group with
             | Some cs => array_map help_field cs
             | None =>
                 lift (Throw (TypeError
                         "Cannot read property 'map' of undefined"))
             end ;;
   slog (EvSend member (addFields embed fields)))%sync.

(** Lines 13-25 after [const groups = Bot.commands.regroup()]. *)
Definition help_all (bot : Bot) (env : Env) (st : Store) (member : string)
           (groups : Groups) : sync unit :=
  (array_map (help_group bot env st member groups) (Object_keys groups) ;;
   sret tt)%sync.

(** The text a command's description formats to (empty when the
    formatting throws). *)
Definition description_text (c : Command) : string :=
  match handleDescription (description c) with
  | Normal d => d
  | Throw _ => ""
  end.

(** The commands filed under a group name. *)
Definition group_of (groups : Groups) (groupName : string) : list Command :=
  match get_group groupName groups with
  | Some cs => cs
  | None => []
  end.

(** The two events of a group that is displayed: its embed is built, then
    sent with one entry per command. *)
Definition group_display (bot : Bot) (env : Env) (st : Store) (u : ClientUser)
           (member : string) (groups : Groups) (groupName : string)
  : list event :=
  [EvNewEmbed (group_shell bot env st u groupName);
   EvSend member
          (addFields (group_shell bot env st u groupName)
                     (map (fun c => help_entry c (description_text c))
                          (group_of groups groupName)))].

(** How many messages a trace sends, how many embeds it constructs. *)
Definition sends (t : list event) : nat := length (filter is_send t).

Definition embeds (t : list event) : nat := length (filter is_new_embed t).

(** The events the body of a handler may leave: an embed constructed, a
    message sent with the given content. *)
Definition display_event (member : string) (ev : event) : Prop :=
  match ev with
  | EvNewEmbed _ => True
  | EvSend content _ => content = member
  | _ => False
  end.

(** [true] when a connection is usable by the time [connect] goes on: it
    was ready when [mongoose.connect] resolved, or its ['open'] event
    fires. *)
Definition ready (c : Connection) : bool :=
  (Z.eqb (readyState c) 1 || opens c)%bool.

(** The store once [this.db] is assigned. *)
Definition with_db (st : Store) (c : Connection) : Store :=
  {| commands := commands st; db := Some c; user := user st |}.

(** The call of [mongoose.connect] for a database name. *)
Definition attempt (bot : Bot) (n : string) : event :=
  EvMongoConnect (mongo_url n) (useNewUrlParser bot) (useUnifiedTopology bot).

(** The debug event of line 143. *)
Definition announce : event :=
  EvEmit "debug" (PText "[DiscordBot] Mongodb connected").

Definition is_debug (ev : event) : bool :=
  match ev with
  | EvEmit name _ => String.eqb name "debug"
  | _ => false
  end.

Definition is_mongo_connect (ev : event) : bool :=
  match ev with
  | EvMongoConnect _ _ _ => true
  | _ => false
  end.

(** Further fixtures: a connection that never opens, a client nobody is
    logged in on. *)
Module Sample.

Definition env_stalled : Env :=
  {| mongoose_connect := fun _ => Resolved {| readyState := 2; opens := false |};
     super_login := fun token => Resolved token;
     now := 0;
     title := fun s => s;
     responses_description := fun s => s;
     channel_send := fun _ _ => Resolved tt |}.

(** An emitter nobody listens to, as Node makes it: an ['error'] event
    without a listener is thrown back at the caller, any other event
    returns [false]. *)
Definition unlistened : Emitter :=
  {| emit_result :=
       fun ev p =>
         match p with
         | PError e => if String.eqb ev "error" then Throw e else Normal false
         | PText _ => Normal false
         end |}.

Definition bot_unlistened : Bot :=
  ClientDiscordBot
    {| option_dev := None; option_prefix := None; option_dbname := None |}
    (Some unlistened) [].

Definition bot_without_emitter : Bot :=
  ClientDiscordBot
    {| option_dev := None; option_prefix := None; option_dbname := None |}
    None [].

Definition logged_out (cs : Commands) : Store :=
  {| commands := cs; db := None; user := None |}.

Definition groups : Groups :=
  [("help", [Fixture.Help]); ("util", [Fixture.Ping; Fixture.Blank])].

Definition groups_broken : Groups :=
  [("help", [Fixture.Help]); ("util", [Fixture.Ping; Fixture.Broken])].

End Sample.

(* ================================================================== *)
(** * Alias lookup *)
(* ================================================================== *)

Section Lookup.

Variable cmd : string.

(** The alias that [find] hands back is the token itself. *)
Lemma array_find_eqb (aliases : list string) :
  array_find (fun a => String.eqb cmd a) aliases =
  if existsb (String.eqb cmd) aliases then Some cmd else None.
Proof.
  induction aliases as [| a rest IH]; simpl; [reflexivity|].
  destruct (String.eqb cmd a) eqn:E; simpl; [|exact IH].
  apply String.eqb_eq in E. now subst a.
Qed.

Lemma alias_find_truthy (c : Command) :
  truthy (alias_find cmd c) =
  (existsb (String.eqb cmd) (alias c) && negb (String.eqb cmd ""))%bool.
Proof.
  unfold alias_find. rewrite array_find_eqb.
  destruct (existsb (String.eqb cmd) (alias c)); reflexivity.
Qed.

Lemma array_find_is_find {A : Type} (fn : A -> bool) (xs : list A) :
  array_find fn xs = List.find fn xs.
Proof. induction xs as [| x rest IH]; simpl; [|rewrite IH]; reflexivity. Qed.

Lemma find_ext_local {A : Type} (f g : A -> bool) (xs : list A) :
  (forall x, f x = g x) -> List.find f xs = List.find g xs.
Proof.
  intros H. induction xs as [| x rest IH]; simpl; [reflexivity|].
  now rewrite H, IH.
Qed.

(** For a token that is not the empty string the lookup of the help
    script is the specification's [findByAlias]. *)
Lemma find_command_nonempty (registry : Commands) :
  cmd <> "" -> find_command cmd registry = spec_findByAlias cmd registry.
Proof.
  intros Hne. unfold find_command, spec_findByAlias.
  rewrite array_find_is_find. apply find_ext_local. intros c.
  rewrite alias_find_truthy.
  destruct (String.eqb cmd "") eqn:E.
  - apply String.eqb_eq in E. contradiction.
  - now rewrite andb_true_r.
Qed.

Lemma spec_findByAlias_none (registry : Commands) :
  (forall c, In c registry -> ~ In cmd (alias c)) ->
  spec_findByAlias cmd registry = None.
Proof.
  intros H. unfold spec_findByAlias.
  destruct (List.find _ registry) as [c|] eqn:F; [|reflexivity].
  apply find_some in F. destruct F as [Hin Hex].
  apply existsb_exists in Hex. destruct Hex as [a [Ha Heq]].
  apply String.eqb_eq in Heq. subst a. now apply H in Hin.
Qed.

(** No alias list holds the token: the help script finds nothing. *)
Lemma find_command_none (registry : Commands) :
  (forall c, In c registry -> ~ In cmd (alias c)) ->
  find_command cmd registry = None.
Proof.
  intros H. unfold find_command. rewrite array_find_is_find.
  destruct (List.find _ registry) as [c|] eqn:F; [|reflexivity].
  apply find_some in F. destruct F as [Hin Ht].
  rewrite alias_find_truthy in Ht. apply andb_prop in Ht.
  destruct Ht as [Hex _].
  apply existsb_exists in Hex. destruct Hex as [a [Ha Heq]].
  apply String.eqb_eq in Heq. subst a. now apply H in Hin.
Qed.

End Lookup.

(** The empty token is never found, whatever the registry holds. *)
Lemma find_command_empty (registry : Commands) :
  find_command "" registry = None.
Proof.
  unfold find_command. induction registry as [| c rest IH]; simpl; [reflexivity|].
  rewrite alias_find_truthy. simpl. now rewrite andb_false_r.
Qed.

(** The guard of line 30 only tests [!command]: its second disjunct is
    falsy whatever [command.length] is. *)
Lemma not_found_guard_some (c : Command) : not_found_guard (Some c) = false.
Proof.
  unfold not_found_guard, and_then.
  destruct (truthy (length_prop c)) eqn:T; [|exact T].
  destruct (length_prop c) as [| | b | n | s | xs | props]; simpl in *;
    try reflexivity; try discriminate.
  destruct (Z.eqb n 0); [discriminate | reflexivity].
Qed.

(** C3, at the failing input: the registry holds [Blank], whose alias list
    is [""; "b"], and the token is the empty string.  The specification's
    [findByAlias] returns [Blank], the first command whose aliases contain
    the token; the lookup of the help script (line 29) reports not found. *)
Example find_by_alias_misses_empty_token :
  spec_findByAlias "" [Fixture.Help; Fixture.Blank] = Some Fixture.Blank /\
  find_command "" [Fixture.Help; Fixture.Blank] = None.
Proof. split; reflexivity. Qed.

(** C10: when a registered command's alias list contains the empty string,
    looking up the empty token reports not found, although the registry
    does hold a command carrying it: the alias match returns the matched
    alias itself, the empty string, which is falsy. *)
Theorem empty_alias_not_found (registry : Commands) (c : Command) :
  In c registry ->
  In "" (alias c) ->
  alias_find "" c = VStr "" /\
  truthy (alias_find "" c) = false /\
  find_command "" registry = None /\
  spec_findByAlias "" registry <> None.
Proof.
  intros Hin Ha.
  assert (Hex : existsb (String.eqb "") (alias c) = true).
  { apply existsb_exists. exists "". split; [exact Ha | reflexivity]. }
  repeat split.
  - unfold alias_find. rewrite array_find_eqb, Hex. reflexivity.
  - rewrite alias_find_truthy. apply andb_false_r.
  - apply find_command_empty.
  - unfold spec_findByAlias. intros Hnone.
    apply (find_none _ _ Hnone) in Hin. congruence.
Qed.

Lemma empty_alias_not_found_witness :
  find_command "" [Fixture.Help; Fixture.Blank] = None /\
  spec_findByAlias "" [Fixture.Help; Fixture.Blank] <> None.
Proof.
  assert (Hin : In Fixture.Blank [Fixture.Help; Fixture.Blank])
    by (simpl; auto).
  assert (Ha : In "" (alias Fixture.Blank)) by (simpl; auto).
  destruct (empty_alias_not_found _ _ Hin Ha) as [_ [_ [H1 H2]]].
  split; assumption.
Defined.

(* ================================================================== *)
(** * Description formatting *)
(* ================================================================== *)

Lemma remove_commas_app (a b : string) :
  remove_commas (a ++ b) = (remove_commas a ++ remove_commas b)%string.
Proof.
  induction a as [| ch a IH]; simpl; [reflexivity|].
  destruct (Ascii.eqb ch ","%char); simpl; now rewrite IH.
Qed.

Lemma remove_commas_toString (xs : list string) :
  remove_commas (array_toString xs) = String.concat "" (map remove_commas xs).
Proof.
  unfold array_toString.
  induction xs as [| x rest IH]; simpl; [reflexivity|].
  destruct rest as [| y rest']; [reflexivity|].
  rewrite remove_commas_app.
  change (remove_commas (String "," (String.concat "," (y :: rest'))))
    with (remove_commas (String.concat "," (y :: rest'))).
  rewrite IH. reflexivity.
Qed.

Lemma comma_free_fixed (s : string) :
  comma_free s = true -> remove_commas s = s.
Proof. unfold comma_free. apply String.eqb_eq. Qed.

(** A sequence comes out as its elements, commas removed, each followed by
    a line break. *)
Lemma handleDescription_array (ds : list string) :
  handleDescription (VArr ds) = Normal (lines ds).
Proof.
  unfold handleDescription, lines. simpl. f_equal.
  rewrite remove_commas_toString, map_map. f_equal.
  apply map_ext. intros d. now rewrite remove_commas_app.
Qed.

Lemma lines_comma_free (ds : list string) :
  forallb comma_free ds = true ->
  lines ds = String.concat "" (map (fun d => (d ++ LF)%string) ds).
Proof.
  intros H. unfold lines. f_equal. apply map_ext_in. intros d Hd.
  rewrite forallb_forall in H. now rewrite (comma_free_fixed d (H d Hd)).
Qed.

(** C7, as the claim states it, fails: two elements come out with a line
    break after the last one too, which is not the elements joined with
    line breaks; a comma inside an element is lost; and [null], which is
    neither a string nor a sequence, raises a [TypeError] instead of
    yielding the placeholder. *)
Lemma handleDescription_counterexample :
  handleDescription (VArr ["a"; "b"]) = Normal ("a" ++ LF ++ "b" ++ LF)%string /\
  handleDescription (VArr ["a"; "b"]) <> Normal (spec_join_lines ["a"; "b"]) /\
  handleDescription (VArr ["a,b"]) = Normal ("ab" ++ LF)%string /\
  handleDescription (VArr ["a,b"]) <> Normal (spec_join_lines ["a,b"]) /\
  handleDescription VNull =
    Throw (TypeError "Cannot read property 'length' of null") /\
  handleDescription VNull <> Normal unavailable.
Proof.
  repeat split; try reflexivity; vm_compute; discriminate.
Qed.

(** C7, amended: a string is returned unchanged; a sequence of strings
    without commas is returned as its elements in order, each followed by a
    line break; a value whose type is neither string nor object, and an
    object without a defined [length], yield the fixed placeholder. *)
Theorem handleDescription_cases :
  (forall s, handleDescription (VStr s) = Normal s) /\
  (forall ds,
      forallb comma_free ds = true ->
      handleDescription (VArr ds) =
      Normal (String.concat "" (map (fun d => (d ++ LF)%string) ds))) /\
  (forall v,
      typeof v <> "string" -> typeof v <> "object" ->
      handleDescription v = Normal unavailable) /\
  (forall props,
      typeof (get_own "length" props) = "undefined" ->
      handleDescription (VObj props) = Normal unavailable).
Proof.
  split; [|split; [|split]].
  - reflexivity.
  - intros ds H. rewrite handleDescription_array. f_equal.
    now apply lines_comma_free.
  - intros v Hs Ho. destruct v; simpl in *; try reflexivity; congruence.
  - intros props H. unfold handleDescription. simpl. now rewrite H.
Qed.

Lemma handleDescription_cases_witness :
  handleDescription (VStr "pong") = Normal "pong" /\
  handleDescription (VArr ["a"; "b"]) = Normal ("a" ++ LF ++ "b" ++ LF)%string /\
  handleDescription (VNum 3) = Normal unavailable /\
  handleDescription (VObj [("text", VStr "x")]) = Normal unavailable.
Proof.
  destruct handleDescription_cases as [Hs [Ha [Hv Ho]]].
  split; [|split; [|split]].
  - apply Hs.
  - apply (Ha ["a"; "b"]). reflexivity.
  - apply (Hv (VNum 3)); simpl; discriminate.
  - apply (Ho [("text", VStr "x")]). reflexivity.
Defined.

(* ================================================================== *)
(** * Grouping *)
(* ================================================================== *)

Section Regroup.

Implicit Types (c : Command) (groups : Groups) (registry : Commands).

(** The single pass, seen from its last step. *)
Lemma regroup_snoc registry c :
  regroup (registry ++ [c]) = group_add c (regroup registry).
Proof. unfold regroup. now rewrite fold_left_app. Qed.

Lemma group_add_keys groups c :
  map fst (group_add c groups) =
  if existsb (String.eqb (group c)) (map fst groups)
  then map fst groups
  else map fst groups ++ [group c].
Proof.
  induction groups as [| [g cs] rest IH]; simpl; [reflexivity|].
  rewrite (String.eqb_sym (group c) g).
  destruct (String.eqb g (group c)); simpl; [reflexivity|].
  rewrite IH. now destruct (existsb _ (map fst rest)).
Qed.

Lemma group_add_NoDup groups c :
  NoDup (map fst groups) -> NoDup (map fst (group_add c groups)).
Proof.
  intros H. rewrite group_add_keys.
  destruct (existsb _ (map fst groups)) eqn:E; [exact H|].
  apply NoDup_app_remove_l with (l := []). simpl.
  apply Permutation_NoDup with (l := group c :: map fst groups).
  - apply Permutation_cons_append.
  - constructor; [|exact H]. intros Hin.
    assert (existsb (String.eqb (group c)) (map fst groups) = true);
      [|congruence].
    apply existsb_exists. exists (group c). split; [exact Hin|].
    apply String.eqb_refl.
Qed.

Lemma regroup_NoDup registry : NoDup (map fst (regroup registry)).
Proof.
  induction registry as [| c registry IH] using rev_ind.
  - constructor.
  - rewrite regroup_snoc. now apply group_add_NoDup.
Qed.

Lemma get_group_add groups c g :
  get_group g (group_add c groups) =
  if String.eqb g (group c)
  then Some (match get_group g groups with
             | Some cs => cs ++ [c]
             | None => [c]
             end)
  else get_group g groups.
Proof.
  induction groups as [| [g' cs] rest IH]; simpl.
  - now destruct (String.eqb g (group c)).
  - destruct (String.eqb g' (group c)) eqn:E1; simpl.
    + apply String.eqb_eq in E1. subst g'.
      destruct (String.eqb g (group c)); reflexivity.
    + destruct (String.eqb g g') eqn:E2; [|exact IH].
      apply String.eqb_eq in E2. subst g'.
      now rewrite E1.
Qed.

(** Each group is the registry filtered by the group name, in order. *)
Lemma get_group_regroup registry g :
  get_group g (regroup registry) =
  match filter (fun c => String.eqb (group c) g) registry with
  | [] => None
  | cs => Some cs
  end.
Proof.
  induction registry as [| c registry IH] using rev_ind; [reflexivity|].
  rewrite regroup_snoc, get_group_add, IH, filter_app. simpl.
  rewrite (String.eqb_sym (group c) g).
  destruct (String.eqb g (group c)).
  - now destruct (filter _ registry).
  - rewrite app_nil_r. reflexivity.
Qed.

Lemma get_group_In groups g cs :
  NoDup (map fst groups) ->
  (In (g, cs) groups <-> get_group g groups = Some cs).
Proof.
  induction groups as [| [g' cs'] rest IH]; simpl; intros Hnd.
  - split; [tauto | discriminate].
  - inversion Hnd as [| ? ? Hnotin Hrest]; subst.
    destruct (String.eqb g g') eqn:E.
    + apply String.eqb_eq in E. subst g'. split.
      * intros [Heq | Hin]; [congruence|].
        exfalso. apply Hnotin. now apply (in_map fst) in Hin.
      * intros Heq. left. congruence.
    + apply String.eqb_neq in E. rewrite <- (IH Hrest). split.
      * intros [Heq | Hin]; [congruence | exact Hin].
      * now right.
Qed.

Lemma group_add_members groups c :
  Permutation (concat (map snd (group_add c groups)))
              (concat (map snd groups) ++ [c]).
Proof.
  induction groups as [| [g cs] rest IH]; simpl; [reflexivity|].
  destruct (String.eqb g (group c)); simpl.
  - rewrite <- !app_assoc. apply Permutation_app_head.
    apply Permutation_app_comm.
  - rewrite <- app_assoc. now apply Permutation_app_head.
Qed.

Lemma regroup_members registry :
  Permutation (concat (map snd (regroup registry))) registry.
Proof.
  induction registry as [| c registry IH] using rev_ind; [reflexivity|].
  rewrite regroup_snoc, group_add_members.
  now apply Permutation_app_tail.
Qed.

End Regroup.

(** C6: regrouping partitions the registry exactly.  No group name occurs
    twice; the groups are exactly the non-empty selections of the registry
    by group name, in registration order; together the groups hold the
    commands of the registry, each as often as it is registered; and a
    registered command is in the group of its [group] field and in no
    other. *)
Theorem regroup_partition (registry : Commands) :
  NoDup (map fst (regroup registry)) /\
  (forall g cs,
      In (g, cs) (regroup registry) <->
      cs <> [] /\ cs = filter (fun c => String.eqb (group c) g) registry) /\
  Permutation (concat (map snd (regroup registry))) registry /\
  (forall c,
      In c registry ->
      exists cs, In (group c, cs) (regroup registry) /\ In c cs) /\
  (forall c g cs,
      In (g, cs) (regroup registry) -> In c cs -> g = group c).
Proof.
  assert (Hchar : forall g cs,
             In (g, cs) (regroup registry) <->
             cs <> [] /\ cs = filter (fun c => String.eqb (group c) g) registry).
  { intros g cs.
    rewrite (get_group_In _ g cs (regroup_NoDup registry)), get_group_regroup.
    destruct (filter _ registry) as [| c0 rest] eqn:F.
    - split; [discriminate | intros [Hne Heq]; congruence].
    - split.
      + intros Heq. inversion Heq. split; [discriminate | reflexivity].
      + intros [_ Heq]. now subst cs. }
  split; [apply regroup_NoDup|].
  split; [exact Hchar|].
  split; [apply regroup_members|].
  split.
  - intros c Hin.
    assert (Hc : In c (filter (fun c' => String.eqb (group c') (group c)) registry)).
    { apply filter_In. split; [exact Hin | apply String.eqb_refl]. }
    eexists. split; [|exact Hc].
    apply Hchar. split; [|reflexivity].
    intros Hnil. rewrite Hnil in Hc. exact Hc.
  - intros c g cs Hin Hc. apply Hchar in Hin. destruct Hin as [_ Heq].
    subst cs. apply filter_In in Hc. destruct Hc as [_ Hg].
    apply String.eqb_eq in Hg. now symmetry.
Qed.

Lemma regroup_partition_witness :
  In ("util", [Fixture.Ping; Fixture.Blank])
     (regroup [Fixture.Help; Fixture.Ping; Fixture.Blank]) /\
  (exists cs,
      In (group Fixture.Ping, cs)
         (regroup [Fixture.Help; Fixture.Ping; Fixture.Blank]) /\
      In Fixture.Ping cs).
Proof.
  destruct (regroup_partition [Fixture.Help; Fixture.Ping; Fixture.Blank])
    as [_ [Hchar [_ [Hin _]]]].
  split.
  - apply Hchar. split; [discriminate | reflexivity].
  - apply Hin. simpl. auto.
Defined.

(** The scenario of the specification: [Help] in group [help] and [Ping] in
    group [util]. *)
Example scenario_regroup :
  regroup [Fixture.Help; Fixture.Ping] =
  [("help", [Fixture.Help]); ("util", [Fixture.Ping])].
Proof. reflexivity. Qed.

Example scenario_find :
  find_command "p" [Fixture.Help; Fixture.Ping] = Some Fixture.Ping /\
  find_command "x" [Fixture.Help; Fixture.Ping] = None.
Proof. split; reflexivity. Qed.

(* ================================================================== *)
(** * The login lifecycle *)
(* ================================================================== *)

Section Login.

Variables (bot : Bot) (env : Env).

(** Without a database name [connect] returns at once. *)
Lemma connect_skipped :
  truthy (string_or_null (dbname bot)) = false -> connect bot env = ret None.
Proof. intros H. unfold connect. now rewrite H. Qed.

Ltac unfold_async :=
  unfold bind, catch_rethrow, log, settle, set_db, get_db, of_sync,
    call_emit, ret, sbind, slog, lift; simpl.

Ltac conclude :=
  let H := fresh in
  intros H; inversion H; subst; split; [repeat constructor | auto].

(** [connect] only talks to the database and the emitter, and only when
    a database name is configured. *)
Lemma connect_events st r st' t :
  connect bot env st = (r, st', t) ->
  Forall (fun ev => db_event ev = true) t /\
  (t <> [] -> truthy (string_or_null (dbname bot)) = true).
Proof.
  unfold connect.
  destruct (truthy (string_or_null (dbname bot))) eqn:T; simpl;
    [| unfold ret; intros H; inversion H; subst; split;
       [constructor | congruence]].
  unfold_async.
  destruct (mongoose_connect env _) as [c | e |]; simpl; [| conclude ..].
  destruct (negb (readyState c =? 1)%Z); simpl;
    [destruct (opens c); simpl; [| conclude] |];
    (destruct (emit bot) as [em|]; simpl;
     [destruct (emit_result em _ _); simpl |]; conclude).
Qed.

Lemma run_hook_events p m st r st' t :
  run_hook p m st = (r, st', t) ->
  Forall (fun ev => hook_event p ev = true) t /\
  (forall u, r = Resolved u -> t = hook_ok p m).
Proof.
  unfold run_hook.
  destruct (match p with Init => init m | Start => start m end (commands st))
    as [r0 cs].
  intros H. inversion H; subst. split.
  - destruct r; destruct p; repeat constructor.
  - intros u Hu. subst r. reflexivity.
Qed.

(** A pass over the modules only runs the hooks of that pass; when it
    resolves, every hook was called and resolved, in registration order. *)
Lemma run_hooks_events p ms : forall st r st' t,
  run_hooks p ms st = (r, st', t) ->
  Forall (fun ev => hook_event p ev = true) t /\
  (forall u, r = Resolved u -> t = flat_map (hook_ok p) ms).
Proof.
  induction ms as [| m rest IH]; simpl; intros st r st' t H.
  - unfold ret in H. inversion H; subst. split; [constructor | reflexivity].
  - unfold bind in H.
    destruct (run_hook p m st) as [[r1 st1] t1] eqn:H1.
    apply run_hook_events in H1. destruct H1 as [F1 R1].
    destruct r1 as [u | e |].
    + destruct (run_hooks p rest st1) as [[r2 st2] t2] eqn:H2.
      apply IH in H2. destruct H2 as [F2 R2].
      inversion H; subst. split.
      * apply Forall_app. now split.
      * intros u' Hu. rewrite (R1 u eq_refl), (R2 u' Hu). reflexivity.
    + inversion H; subst. split; [exact F1 | discriminate].
    + inversion H; subst. split; [exact F1 | discriminate].
Qed.

(** [login], step by step. *)
Lemma login_unfold token st :
  login bot env token st =
  match connect bot env st with
  | (Resolved _, st1, t1) =>
      match Modules_init bot st1 with
      | (Resolved _, st2, t2) =>
          match Modules_start bot st2 with
          | (Resolved _, st3, t3) =>
              (super_login env token, st3,
               t1 ++ t2 ++ t3 ++ [EvTransportLogin token])
          | (Rejected e, st3, t3) => (Rejected e, st3, t1 ++ t2 ++ t3)
          | (Pending, st3, t3) => (Pending, st3, t1 ++ t2 ++ t3)
          end
      | (Rejected e, st2, t2) => (Rejected e, st2, t1 ++ t2)
      | (Pending, st2, t2) => (Pending, st2, t1 ++ t2)
      end
  | (Rejected e, st1, t1) => (Rejected e, st1, t1)
  | (Pending, st1, t1) => (Pending, st1, t1)
  end.
Proof.
  unfold login, bind, catch_rethrow, log, settle.
  destruct (connect bot env st) as [[[c | e |] st1] t1]; try reflexivity.
  destruct (Modules_init bot st1) as [[[u | e |] st2] t2]; try reflexivity.
  destruct (Modules_start bot st2) as [[[u' | e |] st3] t3]; reflexivity.
Qed.


Ltac login_cases H :=
  rewrite login_unfold in H;
  match type of H with
  | context [connect ?b ?e ?s] =>
      destruct (connect b e s) as [[r1 st1] t1] eqn:Hc;
      pose proof (connect_events _ _ _ _ Hc) as [Fdb Hdb];
      destruct r1 as [c | e1 |];
      [ destruct (Modules_init b st1) as [[r2 st2] t2] eqn:Hi;
        pose proof (run_hooks_events _ _ _ _ _ _ Hi) as [Fi Ri];
        destruct r2 as [u2 | e2 |];
        [ destruct (Modules_start b st2) as [[r3 st3] t3] eqn:Hs;
          pose proof (run_hooks_events _ _ _ _ _ _ Hs) as [Fs Rs];
          destruct r3 as [u3 | e3 |]
        | | ]
      | | ]
  end;
  inversion H; subst; clear H.

Lemma not_in_class (f : event -> bool) (l : list event) (x : event) :
  Forall (fun ev => f ev = true) l -> f x = false -> ~ In x l.
Proof.
  intros F Hx Hin. rewrite Forall_forall in F. apply F in Hin. congruence.
Qed.

Lemma prefix_before {A : Type} (l1 l2 t1 t2 : list A) (x : A) :
  l1 ++ l2 = t1 ++ x :: t2 -> ~ In x l1 -> exists l', t1 = l1 ++ l'.
Proof.
  revert t1. induction l1 as [| a l1 IH]; intros t1 H Hn.
  - now exists t1.
  - destruct t1 as [| b t1]; simpl in H; inversion H; subst.
    + exfalso. apply Hn. now left.
    + destruct (IH t1 H2) as [l' Hl'].
      * intros Hin. apply Hn. now right.
      * exists l'. simpl. now rewrite Hl'.
Qed.

Lemma hook_ok_resolved p ms m :
  In m ms -> In (EvHookResolved p (module_name m)) (flat_map (hook_ok p) ms).
Proof.
  intros H. apply in_flat_map. exists m. split; [exact H|]. simpl. auto.
Qed.

Lemma hook_ok_not_rejected p ms q n e :
  ~ In (EvHookRejected q n e) (flat_map (hook_ok p) ms).
Proof.
  intros H. apply in_flat_map in H. destruct H as [m [_ H]].
  simpl in H. destruct H as [H | [H | []]]; discriminate.
Qed.

Ltac split_in H :=
  repeat (apply in_app_or in H; destruct H as [H | H]).

Ltac out_of_class :=
  match goal with
  | F : Forall (fun ev => ?f ev = true) ?l, H : In ?x ?l |- _ =>
      exact (not_in_class f l x F eq_refl H)
  end.

(** Neither the database step nor the [init] pass calls a [start] hook. *)
Lemma no_start_call (t1 t2 : list event) n :
  Forall (fun ev => db_event ev = true) t1 ->
  Forall (fun ev => hook_event Init ev = true) t2 ->
  ~ In (EvHookCall Start n) (t1 ++ t2).
Proof.
  intros F1 F2 Hin. split_in Hin.
  - out_of_class.
  - out_of_class.
Qed.

(** Whatever precedes the call of a [start] hook begins with the whole
    database step and the whole [init] pass. *)
Lemma start_call_after_init (t1 t2 rest ta tb : list event) n :
  Forall (fun ev => db_event ev = true) t1 ->
  Forall (fun ev => hook_event Init ev = true) t2 ->
  t1 ++ t2 ++ rest = ta ++ EvHookCall Start n :: tb ->
  exists post, ta = t1 ++ t2 ++ post.
Proof.
  intros F1 F2 Heq. rewrite app_assoc in Heq.
  apply prefix_before in Heq; [| now apply no_start_call].
  destruct Heq as [post ->]. exists post. now rewrite app_assoc.
Qed.

(** Only a rejected [init] hook leaves a rejection of the [init] pass. *)
Lemma no_init_rejection (t1 t3 t4 : list event) n e :
  Forall (fun ev => db_event ev = true) t1 ->
  Forall (fun ev => hook_event Start ev = true) t3 ->
  Forall (fun ev => auth_event ev = true) t4 ->
  ~ In (EvHookRejected Init n e)
       (t1 ++ flat_map (hook_ok Init) (modules bot) ++ t3 ++ t4).
Proof.
  intros F1 F3 F4 Hin. split_in Hin.
  - out_of_class.
  - now apply hook_ok_not_rejected in Hin.
  - out_of_class.
  - out_of_class.
Qed.

(** C2: in the trace of every [login], whatever precedes the call of a
    module's [start] hook contains the whole [init] pass, every module's
    [init] hook called and resolved in registration order; and when some
    module's [init] hook rejects, no [start] hook is called at all. *)
Theorem login_init_before_start token st r st' t :
  login bot env token st = (r, st', t) ->
  (forall ta n tb,
      t = ta ++ EvHookCall Start n :: tb ->
      (exists pre post,
          ta = pre ++ flat_map (hook_ok Init) (modules bot) ++ post) /\
      (forall m, In m (modules bot) ->
                 In (EvHookResolved Init (module_name m)) ta)) /\
  (forall n e,
      In (EvHookRejected Init n e) t ->
      forall n', ~ In (EvHookCall Start n') t).
Proof.
  intros H.
  assert (Hpass : forall t1 t2 rest,
             Forall (fun ev => db_event ev = true) t1 ->
             Forall (fun ev => hook_event Init ev = true) t2 ->
             t2 = flat_map (hook_ok Init) (modules bot) ->
             forall ta n tb,
               t1 ++ t2 ++ rest = ta ++ EvHookCall Start n :: tb ->
               (exists pre post,
                   ta = pre ++ flat_map (hook_ok Init) (modules bot) ++ post) /\
               (forall m, In m (modules bot) ->
                          In (EvHookResolved Init (module_name m)) ta)).
  { intros t1 t2 rest F1 F2 E2 ta n tb Heq.
    destruct (start_call_after_init _ _ _ _ _ _ F1 F2 Heq) as [post ->].
    subst t2. split; [now exists t1, post|].
    intros m Hm. apply in_or_app. right. apply in_or_app. left.
    now apply hook_ok_resolved. }
  assert (Hnone : forall t1 t2 ta n tb,
             Forall (fun ev => db_event ev = true) t1 ->
             Forall (fun ev => hook_event Init ev = true) t2 ->
             t1 ++ t2 <> ta ++ EvHookCall Start n :: tb).
  { intros t1 t2 ta n tb F1 F2 Heq.
    apply (no_start_call t1 t2 n F1 F2). rewrite Heq.
    apply in_or_app. right. now left. }
  login_cases H.
  - (* every step ran *)
    specialize (Ri u2 eq_refl). split.
    + intros ta n tb Heq. exact (Hpass _ _ _ Fdb Fi Ri _ _ _ Heq).
    + intros n e Hin. exfalso. rewrite Ri in Hin.
      apply (no_init_rejection t1 t3 [EvTransportLogin token] n e); auto.
  - (* a start hook rejected *)
    specialize (Ri u2 eq_refl). split.
    + intros ta n tb Heq. exact (Hpass _ _ _ Fdb Fi Ri _ _ _ Heq).
    + intros n e Hin. exfalso. rewrite Ri in Hin.
      apply (no_init_rejection t1 t3 [] n e); auto.
      now rewrite app_nil_r.
  - (* a start hook never settled *)
    specialize (Ri u2 eq_refl). split.
    + intros ta n tb Heq. exact (Hpass _ _ _ Fdb Fi Ri _ _ _ Heq).
    + intros n e Hin. exfalso. rewrite Ri in Hin.
      apply (no_init_rejection t1 t3 [] n e); auto.
      now rewrite app_nil_r.
  - (* an init hook rejected *)
    split.
    + intros ta n tb Heq. exfalso. exact (Hnone _ _ _ _ _ Fdb Fi Heq).
    + intros n e _ n'. now apply no_start_call.
  - (* an init hook never settled *)
    split.
    + intros ta n tb Heq. exfalso. exact (Hnone _ _ _ _ _ Fdb Fi Heq).
    + intros n e _ n'. now apply no_start_call.
  - (* the connection was rejected *)
    split.
    + intros ta n tb Heq. exfalso.
      apply (Hnone t [] ta n tb Fdb (Forall_nil _)). now rewrite app_nil_r.
    + intros n e _ n' Hin.
      apply (no_start_call t [] n' Fdb (Forall_nil _)). now rewrite app_nil_r.
  - (* the connection never settled *)
    split.
    + intros ta n tb Heq. exfalso.
      apply (Hnone t [] ta n tb Fdb (Forall_nil _)). now rewrite app_nil_r.
    + intros n e _ n' Hin.
      apply (no_start_call t [] n' Fdb (Forall_nil _)). now rewrite app_nil_r.
Qed.

Lemma hook_not_db p ev : hook_event p ev = true -> db_event ev = false.
Proof. destruct ev as [| | | q | q | q | | | |], p; try destruct q; simpl; congruence. Qed.

Lemma auth_not_db ev : auth_event ev = true -> db_event ev = false.
Proof. destruct ev; simpl; congruence. Qed.

(** C4: without a configured database name (the name is [null], or
    falsy as the empty string is), [connect] does nothing and resolves,
    [login] is the modules' [init] pass followed by the rest, and no event
    of its trace is addressed to the database. *)
Theorem login_without_database token st :
  truthy (string_or_null (dbname bot)) = false ->
  connect bot env st = (Resolved None, st, []) /\
  login bot env token st =
    (Modules_init bot ;;
     Modules_start bot ;;
     (log (EvTransportLogin token) ;; settle (super_login env token)))%async st /\
  (forall r st' t,
      login bot env token st = (r, st', t) ->
      forall ev, In ev t -> db_event ev = false).
Proof.
  intros Hno.
  assert (Hskip : connect bot env st = (Resolved None, st, []))
    by now rewrite connect_skipped.
  split; [exact Hskip|]. split.
  - unfold login. unfold bind at 1. unfold catch_rethrow. rewrite Hskip.
    destruct ((Modules_init bot ;; _)%async st) as [[r st'] t].
    reflexivity.
  - intros r st' t H ev Hin.
    login_cases H; inversion Hskip; subst; simpl in Hin;
      split_in Hin;
      try (now destruct Hin);
      try (apply (hook_not_db Init); rewrite Forall_forall in Fi; now apply Fi);
      try (apply (hook_not_db Start); rewrite Forall_forall in Fs; now apply Fs).
    destruct Hin as [<- | []]. reflexivity.
Qed.

(** C5: with a configured database name, when the connection is rejected
    with an error, [login] is rejected with that same error after a
    single connection attempt: the trace holds nothing else, so no hook of
    any module is called, and the store is untouched. *)
Theorem login_database_failure token st n e :
  dbname bot = Some n ->
  n <> "" ->
  mongoose_connect env (mongo_url n) = Rejected e ->
  login bot env token st =
  (Rejected e, st,
   [EvMongoConnect (mongo_url n) (useNewUrlParser bot) (useUnifiedTopology bot)]).
Proof.
  intros Hdb Hn Hm.
  assert (Hc : connect bot env st =
               (Rejected e, st,
                [EvMongoConnect (mongo_url n) (useNewUrlParser bot)
                                (useUnifiedTopology bot)])).
  { unfold connect. rewrite Hdb. simpl.
    apply String.eqb_neq in Hn. rewrite Hn. simpl.
    unfold_async. rewrite Hm. reflexivity. }
  rewrite login_unfold, Hc. reflexivity.
Qed.
End Login.

(** A configured database that is ready, two modules whose hooks resolve:
    the four steps appear in order and the transport's answer is returned. *)
Example login_all_steps :
  login (Fixture.bot (Some "botdb") [Fixture.quiet "a"; Fixture.quiet "b"])
        Fixture.env_ok "token" constructed =
  (Resolved "token",
   {| commands := [];
      db := Some {| readyState := 1; opens := true |};
      user := None |},
   [EvMongoConnect "mongodb://localhost:27017/botdb" true true;
    EvEmit "debug" (PText "[DiscordBot] Mongodb connected");
    EvHookCall Init "a"; EvHookResolved Init "a";
    EvHookCall Init "b"; EvHookResolved Init "b";
    EvHookCall Start "a"; EvHookResolved Start "a";
    EvHookCall Start "b"; EvHookResolved Start "b";
    EvTransportLogin "token"]).
Proof. reflexivity. Qed.

Lemma login_init_before_start_witness :
  (In (EvHookRejected Init "b" (Error "init failed"))
      (snd (login (Fixture.bot None [Fixture.quiet "a"; Fixture.failing "b"])
                  Fixture.env_ok "token" constructed)) /\
   ~ In (EvHookCall Start "a")
        (snd (login (Fixture.bot None [Fixture.quiet "a"; Fixture.failing "b"])
                    Fixture.env_ok "token" constructed))) /\
  In (EvHookResolved Init "b")
     [EvHookCall Init "a"; EvHookResolved Init "a";
      EvHookCall Init "b"; EvHookResolved Init "b"].
Proof.
  split.
  - destruct (login_init_before_start
                (Fixture.bot None [Fixture.quiet "a"; Fixture.failing "b"])
                Fixture.env_ok "token" constructed _ _ _ eq_refl)
      as [_ Hrej].
    assert (Hin : In (EvHookRejected Init "b" (Error "init failed"))
                     (snd (login (Fixture.bot None
                                    [Fixture.quiet "a"; Fixture.failing "b"])
                                 Fixture.env_ok "token" constructed)))
      by (simpl; auto).
    split; [exact Hin|].
    exact (Hrej "b" (Error "init failed") Hin "a").
  - destruct (login_init_before_start
                (Fixture.bot None [Fixture.quiet "a"; Fixture.quiet "b"])
                Fixture.env_ok "token" constructed _ _ _ eq_refl)
      as [Hbefore _].
    apply (proj2 (Hbefore
                    [EvHookCall Init "a"; EvHookResolved Init "a";
                     EvHookCall Init "b"; EvHookResolved Init "b"]
                    "a"
                    [EvHookResolved Start "a";
                     EvHookCall Start "b"; EvHookResolved Start "b";
                     EvTransportLogin "token"]
                    eq_refl) (Fixture.quiet "b")).
    simpl. auto.
Defined.

Lemma login_without_database_witness :
  connect (Fixture.bot None [Fixture.quiet "a"]) Fixture.env_down
          constructed =
  (Resolved None, constructed, []).
Proof.
  apply (login_without_database (Fixture.bot None [Fixture.quiet "a"])
                                Fixture.env_down "token" constructed).
  reflexivity.
Defined.

Lemma login_database_failure_witness :
  login (Fixture.bot (Some "botdb") [Fixture.quiet "a"]) Fixture.env_down
        "token" constructed =
  (Rejected (Error "ECONNREFUSED"), constructed,
   [EvMongoConnect "mongodb://localhost:27017/botdb" true true]).
Proof.
  apply (login_database_failure
           (Fixture.bot (Some "botdb") [Fixture.quiet "a"]) Fixture.env_down
           "token" constructed "botdb" (Error "ECONNREFUSED")).
  - reflexivity.
  - discriminate.
  - reflexivity.
Defined.

(* ================================================================== *)
(** * The help command with an argument *)
(* ================================================================== *)

Section Help.

Variables (bot : Bot) (env : Env) (st : Store) (member : string).

(** The one-argument branch for a logged-in client: the embed is built
    first, then the command is looked up. *)
Lemma script_one_argument cmd rest u :
  user st = Some u ->
  script_body bot env st member (cmd :: rest) =
  match find_command cmd (commands st) with
  | None => (Normal tt, [EvNewEmbed (help_shell bot env st u)])
  | Some c =>
      match handleDescription (description c) with
      | Normal d =>
          (Normal tt,
           [EvNewEmbed (help_shell bot env st u);
            EvSend member (addFields (help_shell bot env st u) [help_entry c d])])
      | Throw e => (Throw e, [EvNewEmbed (help_shell bot env st u)])
      end
  end.
Proof.
  intros Hu. unfold script_body, user_tag, MessageEmbed, help_shell.
  rewrite Hu. simpl.
  destruct (find_command cmd (commands st)) as [c|]; [|reflexivity].
  rewrite not_found_guard_some. unfold help_field. simpl.
  destruct (handleDescription (description c)); reflexivity.
Qed.

(** The help handler with an argument, for a logged-in client.  Whatever
    the token, the first thing the body does is to construct the embed of
    line 28, which has no entry.  When no registered command's alias list
    contains the first token, that is all the handler does: it resolves, adds
    no entry and sends no message, and its reactions do nothing.  When the
    token is not the empty string, some alias list contains it and the
    description of the first such command formats without error, the body
    is exactly: construct that embed, then send it to the member with one
    entry, that command's. *)
Theorem help_one_argument cmd rest u :
  user st = Some u ->
  embed_fields (help_shell bot env st u) = [] /\
  (exists after,
      body (script bot env st member (cmd :: rest)) =
      EvNewEmbed (help_shell bot env st u) :: after) /\
  ((forall c, In c (commands st) -> ~ In cmd (alias c)) ->
   outcome (script bot env st member (cmd :: rest)) = Resolved tt /\
   body (script bot env st member (cmd :: rest)) =
     [EvNewEmbed (help_shell bot env st u)] /\
   later (script bot env st member (cmd :: rest)) = []) /\
  (forall c d,
      cmd <> "" ->
      spec_findByAlias cmd (commands st) = Some c ->
      handleDescription (description c) = Normal d ->
      outcome (script bot env st member (cmd :: rest)) = Resolved tt /\
      body (script bot env st member (cmd :: rest)) =
        [EvNewEmbed (help_shell bot env st u);
         EvSend member (addFields (help_shell bot env st u) [help_entry c d])]).
Proof.
  intros Hu. split; [|split; [|split]].
  - unfold help_shell, with_defaults. now rewrite Hu.
  - unfold script. rewrite (script_one_argument _ _ _ Hu).
    destruct (find_command cmd (commands st)) as [c|];
      [destruct (handleDescription (description c))|];
      simpl; eexists; reflexivity.
  - intros Hnone. unfold script.
    rewrite (script_one_argument _ _ _ Hu), (find_command_none _ _ Hnone).
    repeat split.
  - intros c d Hne Hfound Hd. unfold script.
    rewrite (script_one_argument _ _ _ Hu), (find_command_nonempty _ _ Hne),
      Hfound, Hd.
    split; reflexivity.
Qed.

End Help.

(** C8, at the failing inputs.  The registry holds [Blank], whose alias
    list contains the empty string, and the one argument is the empty
    string: the token matches [Blank], yet the handler returns after
    building the bare embed, with no entry added and no message sent.  The
    registry holds [Broken], whose description is [null], and the argument
    is its alias: the token matches, yet the handler is rejected with a
    [TypeError] before any entry is added or any message sent. *)
Example help_one_argument_misses_a_match :
  let registry := [Fixture.Help; Fixture.Blank; Fixture.Broken] in
  let shell :=
    help_shell (Fixture.bot None []) Fixture.env_ok (Fixture.store registry)
               Fixture.account in
  let run token :=
    script (Fixture.bot None []) Fixture.env_ok (Fixture.store registry)
           "@member" [token] in
  (spec_findByAlias "" registry = Some Fixture.Blank /\
   run "" = {| outcome := Resolved tt; body := [EvNewEmbed shell];
               later := [] |} /\
   embed_fields shell = []) /\
  (spec_findByAlias "k" registry = Some Fixture.Broken /\
   run "k" =
     {| outcome := Rejected (TypeError "Cannot read property 'length' of null");
        body := [EvNewEmbed shell]; later := [] |}).
Proof. repeat split. Qed.

Lemma help_one_argument_witness :
  let registry := [Fixture.Help; Fixture.Ping] in
  let shell :=
    help_shell (Fixture.bot None []) Fixture.env_ok (Fixture.store registry)
               Fixture.account in
  body (script (Fixture.bot None []) Fixture.env_ok (Fixture.store registry)
               "@member" ["zz"]) = [EvNewEmbed shell] /\
  body (script (Fixture.bot None []) Fixture.env_ok (Fixture.store registry)
               "@member" ["p"]) =
    [EvNewEmbed shell;
     EvSend "@member" (addFields shell [help_entry Fixture.Ping "pong"])].
Proof.
  intros registry shell.
  destruct (help_one_argument (Fixture.bot None []) Fixture.env_ok
                              (Fixture.store registry) "@member" "zz" []
                              Fixture.account eq_refl)
    as [_ [_ [Hnone _]]].
  destruct (help_one_argument (Fixture.bot None []) Fixture.env_ok
                              (Fixture.store registry) "@member" "p" []
                              Fixture.account eq_refl)
    as [_ [_ [_ Hsome]]].
  split.
  - apply Hnone. intros c Hin Ha. simpl in Hin.
    destruct Hin as [<- | [<- | []]]; simpl in Ha;
      repeat (destruct Ha as [Ha | Ha]; [discriminate|]); exact Ha.
  - apply (Hsome Fixture.Ping "pong").
    + discriminate.
    + reflexivity.
    + reflexivity.
Defined.

(* ================================================================== *)
(** * Errors of a handler *)
(* ================================================================== *)

Section Errors.

Variable bot : Bot.

Lemma handleError_emits em e :
  emit bot = Some em ->
  handleError bot e = (emit_result em "error" (PError e), [EvEmit "error" (PError e)]).
Proof.
  intros H. unfold handleError, call_emit. rewrite H. simpl.
  now destruct (emit_result em "error" (PError e)).
Qed.

Lemma handleError_throws e :
  emit bot = None -> handleError bot e = (Throw e, []).
Proof. intros H. unfold handleError. now rewrite H. Qed.

Lemma send_reaction_emits env em content embed e :
  emit bot = Some em ->
  channel_send env content embed = Rejected e ->
  In (EvEmit "error" (PError e)) (send_reaction bot env (EvSend content embed)).
Proof.
  intros Hem Hs. simpl. rewrite Hs, (handleError_emits em e Hem).
  destruct (emit_result em "error" (PError e)); simpl; auto.
Qed.

(** C9, amended: [handleError] throws the error itself, without emitting
    anything, exactly when the client has no emitter; with an emitter it
    emits the error once as the ['error'] event and returns or throws
    whatever the [emit] call returns or throws.  In the help handler the
    error of every rejected [send] is caught and passed to [handleError]: it
    is emitted whenever an emitter is available, it never changes what the
    handler itself does or how its promise settles, and it is left
    unhandled exactly when [handleError] throws. *)
Theorem handleError_delegates :
  (forall e, emit bot = None -> handleError bot e = (Throw e, [])) /\
  (forall e em,
      emit bot = Some em ->
      handleError bot e =
      (emit_result em "error" (PError e), [EvEmit "error" (PError e)])) /\
  (forall e c, handleError bot e = (c, []) -> emit bot = None /\ c = Throw e) /\
  (forall env st member args content embed e,
      In (EvSend content embed) (body (script bot env st member args)) ->
      channel_send env content embed = Rejected e ->
      (forall em,
          emit bot = Some em ->
          In (EvEmit "error" (PError e))
             (later (script bot env st member args))) /\
      (forall e',
          fst (handleError bot e) = Throw e' ->
          In (EvUnhandledRejection e')
             (later (script bot env st member args)))) /\
  (forall env st member args e',
      In (EvUnhandledRejection e') (later (script bot env st member args)) ->
      exists content embed e,
        In (EvSend content embed) (body (script bot env st member args)) /\
        channel_send env content embed = Rejected e /\
        fst (handleError bot e) = Throw e') /\
  (forall env st member args send,
      outcome (script bot (with_channel env send) st member args) =
        outcome (script bot env st member args) /\
      body (script bot (with_channel env send) st member args) =
        body (script bot env st member args)).
Proof.
  split; [intros e Hnone; now apply handleError_throws|].
  split; [intros e em Hem; now apply handleError_emits|].
  split.
  { intros e c H. destruct (emit bot) as [em|] eqn:Hem.
    - rewrite (handleError_emits em e Hem) in H. discriminate.
    - rewrite (handleError_throws e Hem) in H. inversion H. now split. }
  split; [|split].
  - intros env st member args content embed e Hin Hs.
    unfold script in *.
    destruct (script_body bot env st member args) as [c t]. simpl in *.
    split.
    + intros em Hem. apply in_flat_map. exists (EvSend content embed).
      split; [exact Hin|]. now apply send_reaction_emits with (em := em).
    + intros e' Hthrow. apply in_flat_map. exists (EvSend content embed).
      split; [exact Hin|]. simpl. rewrite Hs.
      destruct (handleError bot e) as [[b | e0] t0]; simpl in Hthrow;
        [discriminate|].
      inversion Hthrow; subst. apply in_or_app. right. now left.
  - intros env st member args e' Hin. unfold script in *.
    destruct (script_body bot env st member args) as [c t]. simpl in *.
    apply in_flat_map in Hin. destruct Hin as [ev [Hev Hin]].
    destruct ev; simpl in Hin; try contradiction.
    destruct (channel_send env content embed) as [u | e |] eqn:Hs;
      try contradiction.
    exists content, embed, e. split; [exact Hev|]. split; [exact Hs|].
    destruct (emit bot) as [em|] eqn:Hem.
    + rewrite (handleError_emits em e Hem) in *. simpl.
      destruct (emit_result em "error" (PError e)) as [b | e0]; simpl in Hin.
      * destruct Hin as [Hin | []]. discriminate.
      * destruct Hin as [Hin | [Hin | []]]; [discriminate|].
        now inversion Hin.
    + rewrite (handleError_throws e Hem) in *. simpl in *.
      destruct Hin as [Hin | []]. now inversion Hin.
  - intros env st member args send.
    assert (Hbody : script_body bot (with_channel env send) st member args =
                    script_body bot env st member args)
      by (destruct args; reflexivity).
    unfold script. rewrite Hbody.
    destruct (script_body bot env st member args) as [c t].
    split; reflexivity.
Qed.

End Errors.

(** C9, as the claim states it, fails.  On a client whose emitter nobody
    listens to, [handleError] throws although an emitter exists; and when a
    [send] of the help handler is rejected there, the error is emitted and
    then left as an unhandled rejection. *)
Lemma handleError_counterexample :
  emit Sample.bot_unlistened = Some Sample.unlistened /\
  handleError Sample.bot_unlistened (Error "Missing Permissions") =
    (Throw (Error "Missing Permissions"),
     [EvEmit "error" (PError (Error "Missing Permissions"))]) /\
  later (script Sample.bot_unlistened Fixture.env_down
                (Fixture.store [Fixture.Help; Fixture.Ping])
                "@member" ["p"]) =
    [EvEmit "error" (PError (Error "Missing Permissions"));
     EvUnhandledRejection (Error "Missing Permissions")].
Proof. repeat split. Qed.

Lemma handleError_delegates_witness :
  In (EvEmit "error" (PError (Error "Missing Permissions")))
     (later (script (Fixture.bot None []) Fixture.env_down
                    (Fixture.store [Fixture.Help; Fixture.Ping])
                    "@member" ["p"])) /\
  In (EvUnhandledRejection (Error "Missing Permissions"))
     (later (script Sample.bot_without_emitter Fixture.env_down
                    (Fixture.store [Fixture.Help; Fixture.Ping])
                    "@member" ["p"])) /\
  handleError Sample.bot_without_emitter (Error "Missing Permissions") =
    (Throw (Error "Missing Permissions"), []).
Proof.
  split; [|split].
  - destruct (handleError_delegates (Fixture.bot None []))
      as (_ & _ & _ & Hsend & _).
    eapply (proj1 (Hsend Fixture.env_down
                         (Fixture.store [Fixture.Help; Fixture.Ping])
                         "@member" ["p"] _ _ _
                         (or_intror (or_introl eq_refl)) eq_refl)).
    reflexivity.
  - destruct (handleError_delegates Sample.bot_without_emitter)
      as (_ & _ & _ & Hsend & _).
    eapply (proj2 (Hsend Fixture.env_down
                         (Fixture.store [Fixture.Help; Fixture.Ping])
                         "@member" ["p"] _ _ _
                         (or_intror (or_introl eq_refl)) eq_refl)).
    reflexivity.
  - apply handleError_delegates. reflexivity.
Defined.

(* ================================================================== *)
(** * More on the alias lookup *)
(* ================================================================== *)

Lemma array_find_first {A : Type} (fn : A -> bool) (xs : list A) (x : A) :
  array_find fn xs = Some x ->
  exists before after,
    xs = before ++ x :: after /\ fn x = true /\
    forall y, In y before -> fn y = false.
Proof.
  induction xs as [| a rest IH]; simpl; [discriminate|].
  destruct (fn a) eqn:E.
  - intros H. inversion H; subst. exists [], rest. repeat split; auto.
    intros y [].
  - intros H. destruct (IH H) as (before & after & Heq & Hx & Hb).
    exists (a :: before), after. subst rest. repeat split; auto.
    intros y [<- | Hy]; auto.
Qed.

Lemma carries_iff (cmd : string) (c : Command) :
  existsb (String.eqb cmd) (alias c) = true <-> In cmd (alias c).
Proof.
  rewrite existsb_exists. split.
  - intros [a [Ha Heq]]. apply String.eqb_eq in Heq. now subst.
  - intros H. exists cmd. split; [exact H | apply String.eqb_refl].
Qed.

Lemma find_command_first_hit (cmd : string) (registry : Commands)
      (c : Command) :
  find_command cmd registry = Some c ->
  In cmd (alias c) /\
  exists before after,
    registry = before ++ c :: after /\
    forall c', In c' before -> ~ In cmd (alias c').
Proof.
  intros H.
  assert (Hne : String.eqb cmd "" = false).
  { destruct (String.eqb cmd "") eqn:E; [|reflexivity].
    apply String.eqb_eq in E. subst. rewrite find_command_empty in H.
    discriminate. }
  unfold find_command in H. apply array_find_first in H.
  destruct H as (before & after & Heq & Hc & Hb).
  rewrite alias_find_truthy in Hc. apply andb_prop in Hc.
  split; [now apply carries_iff|].
  exists before, after. split; [exact Heq|].
  intros c' Hin Hcarry. specialize (Hb c' Hin).
  rewrite alias_find_truthy in Hb.
  apply carries_iff in Hcarry. rewrite Hcarry, Hne in Hb. discriminate.
Qed.

(** The command the lookup of line 29 returns is registered, carries the
    token among its aliases, and is the first to do so: every command
    registered before it lacks the token.  The token is then not the empty
    string. *)
Theorem find_command_first_match (cmd : string) (registry : Commands)
        (c : Command) :
  find_command cmd registry = Some c ->
  cmd <> "" /\
  In cmd (alias c) /\
  exists before after,
    registry = before ++ c :: after /\
    forall c', In c' before -> ~ In cmd (alias c').
Proof.
  intros H. split.
  - intros ->. rewrite find_command_empty in H. discriminate.
  - now apply find_command_first_hit.
Qed.

Lemma find_command_first_match_witness :
  In "p" (alias Fixture.Ping) /\
  exists before after,
    [Fixture.Help; Fixture.Ping; Fixture.Blank] = before ++ Fixture.Ping :: after /\
    forall c', In c' before -> ~ In "p" (alias c').
Proof.
  apply (find_command_first_match "p"
           [Fixture.Help; Fixture.Ping; Fixture.Blank] Fixture.Ping).
  reflexivity.
Defined.

(** The lookup of line 29 reports not found in exactly two cases: the token
    is the empty string, or no registered command has it among its
    aliases. *)
Theorem find_command_not_found_iff (cmd : string) (registry : Commands) :
  find_command cmd registry = None <->
  cmd = "" \/ forall c, In c registry -> ~ In cmd (alias c).
Proof.
  split.
  - intros H. destruct (String.eqb cmd "") eqn:E.
    + left. now apply String.eqb_eq.
    + right. intros c Hin Hcarry.
      unfold find_command in H. rewrite array_find_is_find in H.
      apply (find_none _ _ H) in Hin.
      rewrite alias_find_truthy, E in Hin.
      apply carries_iff in Hcarry. rewrite Hcarry in Hin. discriminate.
  - intros [-> | H].
    + apply find_command_empty.
    + now apply find_command_none.
Qed.

Lemma find_command_not_found_iff_witness :
  find_command "x" [Fixture.Help; Fixture.Ping] = None /\
  find_command "" [Fixture.Blank] = None.
Proof.
  split.
  - apply find_command_not_found_iff. right. intros c Hin Ha.
    simpl in Hin. destruct Hin as [<- | [<- | []]]; simpl in Ha;
      repeat (destruct Ha as [Ha | Ha]; [discriminate|]); exact Ha.
  - apply find_command_not_found_iff. now left.
Defined.

(** The second half of the guard of line 30 never fires: whatever a found
    command answers to [.length], the guard returns exactly when the lookup
    found nothing. *)
Theorem length_guard_never_fires (found : option Command) :
  not_found_guard found = true <-> found = None.
Proof.
  destruct found as [c|]; simpl.
  - change (not_found_guard (Some c) = true <-> Some c = None).
    rewrite not_found_guard_some. split; discriminate.
  - split; reflexivity.
Qed.

Lemma length_guard_never_fires_witness :
  not_found_guard
    (Some {| name := "Odd"; alias := ["o"]; description := VStr "odd";
             group := "util"; length_prop := VNum 0 |}) <> true.
Proof.
  intros H. apply length_guard_never_fires in H. discriminate.
Defined.

(* ================================================================== *)
(** * More on the description formatting *)
(* ================================================================== *)

Lemma remove_commas_idempotent (s : string) :
  remove_commas (remove_commas s) = remove_commas s.
Proof.
  induction s as [| ch s IH]; simpl; [reflexivity|].
  destruct (Ascii.eqb ch ","%char) eqn:E; simpl; [exact IH|].
  now rewrite E, IH.
Qed.

Lemma append_empty (a b : string) :
  (a ++ b)%string = "" -> a = "" /\ b = "".
Proof. destruct a; simpl; [auto | discriminate]. Qed.

(** Over the descriptions that are plain data ([undefined], [null], a
    boolean, a number, a string, an array of strings, or an object whose
    properties are such data, none of them a function), [handleDescription]
    throws in exactly two cases: the description is [null], or it is an
    object that is not an array and has a defined [length].  On every other
    such value it returns a text. *)
Theorem handleDescription_throws_iff (desc : value) :
  (exists e, handleDescription desc = Throw e) <->
  desc = VNull \/
  exists props,
    desc = VObj props /\ typeof (get_own "length" props) <> "undefined".
Proof.
  split.
  - intros [e H].
    destruct desc as [| | b | n | s | ds | props]; try discriminate.
    + now left.
    + right. exists props. split; [reflexivity|].
      intros Hu. unfold handleDescription in H. simpl in H.
      rewrite Hu in H. discriminate.
  - intros [-> | [props [-> Hlen]]].
    + eexists. reflexivity.
    + unfold handleDescription. simpl.
      destruct (String.eqb (typeof (get_own "length" props)) "undefined") eqn:E.
      * apply String.eqb_eq in E. contradiction.
      * eexists. reflexivity.
Qed.

Lemma handleDescription_throws_iff_witness :
  (exists e, handleDescription (VObj [("length", VNum 2)]) = Throw e) /\
  ~ (exists e, handleDescription (VArr ["a"]) = Throw e).
Proof.
  split.
  - apply handleDescription_throws_iff. right.
    exists [("length", VNum 2)]. split; [reflexivity | discriminate].
  - intros H. apply handleDescription_throws_iff in H.
    destruct H as [H | [props [H _]]]; discriminate.
Defined.

(** A sequence always formats to a text: each element with every one of
    its commas removed, followed by a line break, in order.  The text
    therefore holds no comma at all, and it is empty exactly for the empty
    sequence. *)
Theorem handleDescription_sequence (ds : list string) :
  exists s,
    handleDescription (VArr ds) = Normal s /\
    s = String.concat "" (map (fun d => (remove_commas d ++ LF)%string) ds) /\
    remove_commas s = s /\
    (s = "" <-> ds = []).
Proof.
  exists (lines ds). split; [apply handleDescription_array|].
  split; [reflexivity|]. split.
  - unfold lines. induction ds as [| d rest IH]; [reflexivity|].
    cbn [map]. destruct rest as [| d' rest'].
    + cbn. rewrite remove_commas_app, remove_commas_idempotent. reflexivity.
    + change (String.concat "" ((remove_commas d ++ LF)%string ::
                                map (fun d0 => (remove_commas d0 ++ LF)%string)
                                    (d' :: rest')))
        with ((remove_commas d ++ LF) ++ "" ++
              String.concat "" (map (fun d0 => (remove_commas d0 ++ LF)%string)
                                    (d' :: rest')))%string.
      rewrite !remove_commas_app, remove_commas_idempotent, IH. reflexivity.
  - split.
    + destruct ds as [| d rest]; [reflexivity|]. unfold lines. cbn [map].
      intros H. exfalso.
      destruct (map (fun d0 => (remove_commas d0 ++ LF)%string) rest);
        cbn in H; apply append_empty in H; destruct H as [H1 H2];
        try (apply append_empty in H1; destruct H1 as [_ H1]);
        discriminate.
    + intros ->. reflexivity.
Qed.

(* ================================================================== *)
(** * More on [MessageEmbed] *)
(* ================================================================== *)

(** [MessageEmbed] hands the constructor exactly one object and returns
    the embed made from it.  In that object title, description and fields
    are the caller's, and so is every other property the caller's data has,
    an explicit [null] included.  A property the data lacks gets its default
    when a client is logged in and stays absent otherwise.  Passing the
    object's properties again changes nothing. *)
Theorem MessageEmbed_given_data_wins (bot : Bot) (env : Env) (st : Store)
        (data : EmbedData) :
  exists built,
    MessageEmbed bot env st data = (Normal built, [EvNewEmbed built]) /\
    embed_title built = assigned (data_title data) None /\
    embed_description built = assigned (data_description data) None /\
    embed_fields built = data_fields data /\
    (data_color data <> Absent ->
     embed_color built = assigned (data_color data) None) /\
    (data_thumbnail data <> Absent ->
     embed_thumbnail built = assigned (data_thumbnail data) None) /\
    (data_timestamp data <> Absent ->
     embed_timestamp built = assigned (data_timestamp data) None) /\
    (data_footer data <> Absent ->
     embed_footer built = assigned (data_footer data) None) /\
    (forall u,
        user st = Some u ->
        (data_color data = Absent -> embed_color built = Some "RANDOM") /\
        (data_thumbnail data = Absent ->
         embed_thumbnail built = Some (displayAvatarURL u)) /\
        (data_timestamp data = Absent ->
         embed_timestamp built = Some (now env)) /\
        (data_footer data = Absent ->
         embed_footer built =
         Some {| text := (tag u ++ " | " ++ dev bot)%string;
                 iconUrl := displayAvatarURL u |})) /\
    (user st = None ->
     embed_color built = assigned (data_color data) None /\
     embed_thumbnail built = assigned (data_thumbnail data) None /\
     embed_timestamp built = assigned (data_timestamp data) None /\
     embed_footer built = assigned (data_footer data) None) /\
    with_defaults bot env st (as_data built) = built.
Proof.
  exists (with_defaults bot env st data).
  split; [reflexivity|].
  unfold with_defaults.
  destruct data as [t d c th ts f fs].
  destruct (user st) as [u|] eqn:Hu; cbn [data_title data_description
    data_color data_thumbnail data_timestamp data_footer data_fields
    embed_title embed_description embed_color embed_thumbnail embed_timestamp
    embed_footer embed_fields].
  - split; [reflexivity|]. split; [reflexivity|]. split; [reflexivity|].
    split; [destruct c; [congruence | reflexivity ..]|].
    split; [destruct th; [congruence | reflexivity ..]|].
    split; [destruct ts; [congruence | reflexivity ..]|].
    split; [destruct f; [congruence | reflexivity ..]|].
    split.
    { intros u' Hu'. inversion Hu'; subst u'.
      repeat split; intros ->; reflexivity. }
    split; [discriminate|].
    destruct t, d, c, th, ts, f; reflexivity.
  - split; [reflexivity|]. split; [reflexivity|]. split; [reflexivity|].
    split; [reflexivity|]. split; [reflexivity|]. split; [reflexivity|].
    split; [reflexivity|].
    split; [discriminate|].
    split; [intros _; repeat split|].
    destruct t, d, c, th, ts, f; reflexivity.
Qed.

Lemma MessageEmbed_given_data_wins_witness :
  exists built,
    MessageEmbed (Fixture.bot None []) Fixture.env_ok (Fixture.store [])
                 {| data_title := Given "t"; data_description := Absent;
                    data_color := Null; data_thumbnail := Given "own.png";
                    data_timestamp := Absent; data_footer := Absent;
                    data_fields := [] |} =
    (Normal built, [EvNewEmbed built]) /\
    embed_color built = None /\
    embed_thumbnail built = Some "own.png" /\
    embed_timestamp built = Some 0%Z.
Proof.
  destruct (MessageEmbed_given_data_wins
              (Fixture.bot None []) Fixture.env_ok (Fixture.store [])
              {| data_title := Given "t"; data_description := Absent;
                 data_color := Null; data_thumbnail := Given "own.png";
                 data_timestamp := Absent; data_footer := Absent;
                 data_fields := [] |})
    as (built & Hrun & _ & _ & _ & Hcolor & Hthumb & _ & _ & Hdflt & _).
  exists built. split; [exact Hrun|]. split; [|split].
  - apply Hcolor. discriminate.
  - apply Hthumb. discriminate.
  - apply (Hdflt Fixture.account eq_refl). reflexivity.
Defined.

(* ================================================================== *)
(** * More on [connect] and on [login] with a database *)
(* ================================================================== *)

Section Connect.

Variables (bot : Bot) (env : Env).

(** [connect] with a database name, case by case. *)
Lemma connect_configured st n :
  dbname bot = Some n -> n <> "" ->
  connect bot env st =
  match mongoose_connect env (mongo_url n) with
  | Rejected e => (Rejected e, st, [attempt bot n])
  | Pending => (Pending, st, [attempt bot n])
  | Resolved c =>
      let waited :=
        if Z.eqb (readyState c) 1 then [attempt bot n]
        else [attempt bot n; EvAwaitOpen] in
      if ready c then
        match emit bot with
        | None =>
            (Rejected (TypeError "this.emit is not a function"),
             with_db st c, waited)
        | Some em =>
            match emit_result em "debug"
                              (PText "[DiscordBot] Mongodb connected") with
            | Normal _ => (Resolved (Some c), with_db st c, waited ++ [announce])
            | Throw e => (Rejected e, with_db st c, waited ++ [announce])
            end
        end
      else (Pending, with_db st c, [attempt bot n; EvAwaitOpen])
  end.
Proof.
  intros Hdb Hn. unfold connect, ready. rewrite Hdb. simpl.
  apply String.eqb_neq in Hn. rewrite Hn. simpl.
  unfold bind, catch_rethrow, log, settle, set_db, get_db, of_sync,
    call_emit, ret, sbind, slog, lift. simpl.
  destruct (mongoose_connect env (mongo_url n)) as [c | e |]; try reflexivity.
  simpl. destruct (Z.eqb (readyState c) 1); simpl.
  - destruct (emit bot) as [em|]; [|reflexivity].
    destruct (emit_result em _ _); reflexivity.
  - destruct (opens c); simpl; [|reflexivity].
    destruct (emit bot) as [em|]; [|reflexivity].
    destruct (emit_result em _ _); reflexivity.
Qed.

Lemma configured_cases :
  truthy (string_or_null (dbname bot)) = true ->
  exists n, dbname bot = Some n /\ n <> "".
Proof.
  destruct (dbname bot) as [n|]; simpl; [|discriminate].
  intros H. exists n. split; [reflexivity|].
  intros ->. discriminate.
Qed.

Ltac connect_cases H n :=
  let Hdb := fresh "Hdb" in
  let Hn := fresh "Hn" in
  destruct (truthy (string_or_null (dbname bot))) eqn:Hcfg;
  [ destruct (configured_cases Hcfg) as [n [Hdb Hn]];
    rewrite (connect_configured _ n Hdb Hn) in H
  | rewrite (connect_skipped bot env Hcfg) in H; unfold ret in H ].


(** The debug event "Mongodb connected" is only ever emitted for a
    configured database whose connection resolved and is usable; it is then
    the last thing [connect] does. *)
Theorem connect_announces_only_when_ready st r st' t ev :
  connect bot env st = (r, st', t) ->
  In ev t -> is_debug ev = true ->
  (exists n c,
      dbname bot = Some n /\
      mongoose_connect env (mongo_url n) = Resolved c /\
      ready c = true /\ db st' = Some c) /\
  exists before, t = before ++ [ev].
Proof.
  intros H Hin Hd. connect_cases H n.
  - destruct (mongoose_connect env (mongo_url n)) as [c | e |] eqn:Hm.
    + cbv zeta in H. destruct (ready c) eqn:Hr.
      * assert (Hlast : forall waited : list event,
                   (forall x, In x waited -> is_debug x = false) ->
                   In ev (waited ++ [announce]) ->
                   exists before, waited ++ [announce] = before ++ [ev]).
        { intros waited Hw Hi. apply in_app_or in Hi.
          destruct Hi as [Hi | [<- | []]].
          - apply Hw in Hi. congruence.
          - now exists waited. }
        assert (Hw : forall x,
                   In x (if Z.eqb (readyState c) 1 then [attempt bot n]
                         else [attempt bot n; EvAwaitOpen]) ->
                   is_debug x = false).
        { intros x Hx. destruct (Z.eqb (readyState c) 1); simpl in Hx;
            repeat (destruct Hx as [<- | Hx]; [reflexivity|]); destruct Hx. }
        destruct (emit bot) as [em|].
        -- destruct (emit_result em _ _); inversion H; subst;
             (split; [exists n, c; auto | now apply Hlast]).
        -- inversion H; subst. apply Hw in Hin. congruence.
      * inversion H; subst. simpl in Hin.
        destruct Hin as [<- | [<- | []]]; discriminate.
    + inversion H; subst. destruct Hin as [<- | []]. discriminate.
    + inversion H; subst. destruct Hin as [<- | []]. discriminate.
  - inversion H; subst. destruct Hin.
Qed.

(** [connect] contacts mongoose at most once, before anything else, at the
    address made of the fixed prefix and the database name, with the
    client's two connection options. *)
Theorem connect_single_attempt st r st' t :
  connect bot env st = (r, st', t) ->
  t = [] \/
  exists n rest,
    dbname bot = Some n /\ n <> "" /\
    t = EvMongoConnect ("mongodb://localhost:27017/" ++ n)%string
                       (useNewUrlParser bot) (useUnifiedTopology bot) :: rest /\
    forall ev, In ev rest -> is_mongo_connect ev = false.
Proof.
  intros H. connect_cases H n.
  - right. exists n.
    assert (Hshape : forall (waited : list event) tail,
               waited = [attempt bot n] \/ waited = [attempt bot n; EvAwaitOpen] ->
               tail = [] \/ tail = [announce] ->
               exists rest,
                 waited ++ tail = attempt bot n :: rest /\
                 forall ev, In ev rest -> is_mongo_connect ev = false).
    { intros waited tail [-> | ->] [-> | ->]; simpl; eexists;
        (split; [reflexivity|]); intros ev Hin; simpl in Hin;
        repeat (destruct Hin as [<- | Hin]; [reflexivity|]); destruct Hin. }
    assert (Hwaited : forall c,
               (if Z.eqb (readyState c) 1 then [attempt bot n]
                else [attempt bot n; EvAwaitOpen]) = [attempt bot n] \/
               (if Z.eqb (readyState c) 1 then [attempt bot n]
                else [attempt bot n; EvAwaitOpen]) = [attempt bot n; EvAwaitOpen]).
    { intros c. destruct (Z.eqb (readyState c) 1); auto. }
    destruct (mongoose_connect env (mongo_url n)) as [c | e |].
    + cbv zeta in H. destruct (ready c).
      * destruct (emit bot) as [em|];
          [destruct (emit_result em _ _)|]; inversion H; subst;
          [ destruct (Hshape _ [announce] (Hwaited c) (or_intror eq_refl))
              as [rest [Heq Hrest]]
          | destruct (Hshape _ [announce] (Hwaited c) (or_intror eq_refl))
              as [rest [Heq Hrest]]
          | destruct (Hshape _ [] (Hwaited c) (or_introl eq_refl))
              as [rest [Heq Hrest]]; rewrite app_nil_r in Heq ];
          exists rest; auto.
      * inversion H; subst. exists [EvAwaitOpen]. repeat split; auto.
        intros ev [<- | []]. reflexivity.
    + inversion H; subst. exists []. repeat split; auto. intros ev [].
    + inversion H; subst. exists []. repeat split; auto. intros ev [].
  - left. now inversion H.
Qed.

(** A connection that resolves unready and whose ['open'] event never fires
    leaves [login] waiting for ever: [this.db] is already assigned, but no
    module hook is called and the transport is never contacted. *)
Theorem login_waits_for_open token st n c :
  dbname bot = Some n -> n <> "" ->
  mongoose_connect env (mongo_url n) = Resolved c ->
  ready c = false ->
  login bot env token st =
  (Pending,
   {| commands := commands st; db := Some c; user := user st |},
   [EvMongoConnect (mongo_url n) (useNewUrlParser bot) (useUnifiedTopology bot);
    EvAwaitOpen]).
Proof.
  intros Hdb Hn Hm Hr.
  rewrite login_unfold, (connect_configured st n Hdb Hn), Hm.
  cbv zeta. rewrite Hr. reflexivity.
Qed.

(** What [login] leaves after the events of [connect] is not addressed to
    the database. *)
Lemma login_after_connect token st r st' t :
  login bot env token st = (r, st', t) ->
  exists r1 st1 t1 rest,
    connect bot env st = (r1, st1, t1) /\
    t = t1 ++ rest /\
    forall ev, In ev rest -> db_event ev = false.
Proof.
  intros H. rewrite login_unfold in H.
  destruct (connect bot env st) as [[r1 st1] t1].
  exists r1, st1, t1.
  assert (Hhooks : forall p (tr : list event) ev,
             Forall (fun ev => hook_event p ev = true) tr ->
             In ev tr -> db_event ev = false).
  { intros p tr ev F Hin. rewrite Forall_forall in F.
    exact (hook_not_db p ev (F ev Hin)). }
  destruct r1 as [v | e |];
    [| inversion H; subst; exists []; rewrite app_nil_r;
       repeat split; auto; intros ev [] ..].
  destruct (Modules_init bot st1) as [[r2 st2] t2] eqn:Hi.
  destruct (run_hooks_events _ _ _ _ _ _ Hi) as [Fi _].
  destruct r2 as [u2 | e2 |];
    [| inversion H; subst; exists t2; repeat split; auto;
       intros ev Hin; exact (Hhooks Init t2 ev Fi Hin) ..].
  destruct (Modules_start bot st2) as [[r3 st3] t3] eqn:Hs.
  destruct (run_hooks_events _ _ _ _ _ _ Hs) as [Fs _].
  destruct r3 as [u3 | e3 |]; inversion H; subst.
  - exists (t2 ++ t3 ++ [EvTransportLogin token]). repeat split; auto.
    intros ev Hin. apply in_app_or in Hin. destruct Hin as [Hin | Hin];
      [exact (Hhooks Init t2 ev Fi Hin)|].
    apply in_app_or in Hin. destruct Hin as [Hin | [<- | []]];
      [exact (Hhooks Start t3 ev Fs Hin) | reflexivity].
  - exists (t2 ++ t3). repeat split; auto.
    intros ev Hin. apply in_app_or in Hin. destruct Hin as [Hin | Hin];
      [exact (Hhooks Init t2 ev Fi Hin) | exact (Hhooks Start t3 ev Fs Hin)].
  - exists (t2 ++ t3). repeat split; auto.
    intros ev Hin. apply in_app_or in Hin. destruct Hin as [Hin | Hin];
      [exact (Hhooks Init t2 ev Fi Hin) | exact (Hhooks Start t3 ev Fs Hin)].
Qed.

End Connect.

(** A client built by the constructor contacts the database at most once
    during [login], and first of all: at the address made of
    [mongodb://localhost:27017/] and the [dbname] option, with
    [useNewUrlParser] and [useUnifiedTopology] both set. *)
Theorem login_single_database_attempt (options : ClientDiscordBotOptions)
        (em : option Emitter) (ms : list Module) (env : Env) (token : string)
        (st : Store) r st' t (ev : event) :
  login (ClientDiscordBot options em ms) env token st = (r, st', t) ->
  In ev t ->
  is_mongo_connect ev = true ->
  exists n tail,
    option_dbname options = Some n /\ n <> "" /\
    ev = EvMongoConnect ("mongodb://localhost:27017/" ++ n)%string true true /\
    t = ev :: tail /\
    forall ev', In ev' tail -> is_mongo_connect ev' = false.
Proof.
  intros H Hin Hm.
  assert (Hclass : forall x, is_mongo_connect x = true -> db_event x = true).
  { intros x. destruct x; simpl; congruence. }
  destruct (login_after_connect _ _ _ _ _ _ _ H)
    as (r1 & st1 & t1 & rest & Hc & -> & Hrest).
  assert (Hrest' : forall x, In x rest -> is_mongo_connect x = false).
  { intros x Hx. destruct (is_mongo_connect x) eqn:E; [|reflexivity].
    apply Hclass in E. rewrite (Hrest x Hx) in E. discriminate. }
  apply in_app_or in Hin. destruct Hin as [Hin | Hin];
    [| rewrite (Hrest' ev Hin) in Hm; discriminate].
  destruct (connect_single_attempt _ _ _ _ _ _ Hc)
    as [-> | (n & tail & Hdb & Hn & -> & Htail)]; [destruct Hin|].
  simpl in Hdb, Hin. destruct Hin as [<- | Hin];
    [| rewrite (Htail ev Hin) in Hm; discriminate].
  exists n, (tail ++ rest). repeat split; auto.
  intros ev' Hin'. apply in_app_or in Hin'. destruct Hin'; auto.
Qed.

(* ================================================================== *)
(** * The help command without an argument *)
(* ================================================================== *)

Lemma insert_index_In (k x : N * string) (ks : list (N * string)) :
  In x (insert_index k ks) <-> x = k \/ In x ks.
Proof.
  induction ks as [| k' rest IH]; simpl.
  - split; [intros [<- | []]; auto | intros [-> | []]; auto].
  - destruct (N.leb (fst k) (fst k')); simpl.
    + split; [intros [<- | H]; auto | intros [-> | H]; auto].
    + rewrite IH. tauto.
Qed.

Lemma index_keys_In (ks : list string) (n : N) (k : string) :
  In (n, k) (index_keys ks) <-> In k ks /\ array_index k = Some n.
Proof.
  induction ks as [| k' rest IH]; simpl; [tauto|].
  destruct (array_index k') as [n'|] eqn:E.
  - rewrite insert_index_In, IH. split.
    + intros [H | [H1 H2]]; [inversion H; subst; auto | auto].
    + intros [[<- | H1] H2]; [left; congruence | auto].
  - rewrite IH. split; [tauto|].
    intros [[<- | H1] H2]; [congruence | auto].
Qed.

(** [Object.keys] lists the keys of the object, all of them. *)
Lemma Object_keys_In {A : Type} (o : list (string * A)) (k : string) :
  In k (Object_keys o) <-> In k (map fst o).
Proof.
  unfold Object_keys. rewrite in_app_iff, filter_In, in_map_iff. split.
  - intros [[[n k'] [Heq Hin]] | [Hin _]]; [|exact Hin].
    simpl in Heq. subst k'. now apply index_keys_In in Hin.
  - intros Hin. unfold is_index.
    destruct (array_index k) as [n|] eqn:E.
    + left. exists (n, k). split; [reflexivity|]. now apply index_keys_In.
    + right. auto.
Qed.

Lemma get_group_keys (groups : Groups) (k : string) :
  In k (map fst groups) <-> exists cs, get_group k groups = Some cs.
Proof.
  induction groups as [| [g cs] rest IH]; simpl.
  - split; [tauto | intros [cs H]; discriminate].
  - destruct (String.eqb k g) eqn:E.
    + apply String.eqb_eq in E. subst g. split; [eauto | auto].
    + apply String.eqb_neq in E. rewrite <- IH. split.
      * intros [H | H]; [congruence | exact H].
      * auto.
Qed.

Section ArrayMap.

Context {A B : Type} (fn : A -> sync B).

Lemma array_map_all_normal (g : A -> B) (tr : A -> list event) (xs : list A) :
  (forall x, In x xs -> fn x = (Normal (g x), tr x)) ->
  array_map fn xs = (Normal (map g xs), flat_map tr xs).
Proof.
  induction xs as [| x rest IH]; intros H; [reflexivity|].
  simpl. rewrite (H x (or_introl eq_refl)). unfold sbind at 1.
  rewrite IH by (intros y Hy; apply H; now right).
  unfold sbind, sret. simpl. now rewrite app_nil_r.
Qed.

Lemma array_map_some_throw (xs : list A) (x : A) :
  In x xs -> (exists e t, fn x = (Throw e, t)) ->
  exists e t, array_map fn xs = (Throw e, t).
Proof.
  induction xs as [| a rest IH]; intros Hin Hx; [destruct Hin|].
  simpl. unfold sbind at 1.
  destruct (fn a) as [[b | e] t] eqn:Ea; [|eauto].
  destruct Hin as [-> | Hin].
  - destruct Hx as [e [t' Hx]]. congruence.
  - destruct (IH Hin Hx) as [e [t' ->]]. unfold sbind. simpl. eauto.
Qed.

(** A loop whose steps each send one message and build one embed when they
    return, and send nothing and build at most one embed when they throw. *)
Lemma array_map_counts (xs : list A) :
  (forall x,
      match fn x with
      | (Normal _, t) => sends t = 1 /\ embeds t = 1
      | (Throw _, t) => sends t = 0 /\ embeds t <= 1
      end) ->
  match array_map fn xs with
  | (Normal _, t) => sends t = length xs /\ embeds t = length xs
  | (Throw _, t) =>
      sends t < length xs /\ sends t <= embeds t /\ embeds t <= sends t + 1
  end.
Proof.
  intros H. induction xs as [| a rest IH]; [simpl; auto|].
  simpl. unfold sbind at 1. specialize (H a).
  destruct (fn a) as [[b | e] t] eqn:Ea.
  - destruct H as [Hs He].
    destruct (array_map fn rest) as [[bs | e] t'] eqn:Er; unfold sbind; simpl;
      unfold sends, embeds in *; rewrite ?app_nil_r, !filter_app, !length_app;
      lia.
  - unfold sends, embeds in *. simpl. lia.
Qed.

Lemma array_map_Forall (P : event -> Prop) (xs : list A) :
  (forall x, Forall P (snd (fn x))) -> Forall P (snd (array_map fn xs)).
Proof.
  intros H. induction xs as [| a rest IH]; [constructor|].
  simpl. unfold sbind at 1. specialize (H a).
  destruct (fn a) as [[b | e] t]; simpl in *; [|exact H].
  destruct (array_map fn rest) as [[bs | e] t']; unfold sbind; simpl in *;
    rewrite ?app_nil_r; apply Forall_app; auto.
Qed.

End ArrayMap.

Section HelpAll.

Variables (bot : Bot) (env : Env) (st : Store) (member : string).

Lemma help_field_formats (c : Command) :
  help_field c =
  match handleDescription (description c) with
  | Normal d => (Normal (help_entry c d), [])
  | Throw e => (Throw e, [])
  end.
Proof.
  unfold help_field, sbind, lift, sret.
  destruct (handleDescription (description c)); reflexivity.
Qed.

Lemma help_fields_silent (cs : list Command) :
  snd (array_map help_field cs) = [].
Proof.
  induction cs as [| c rest IH]; [reflexivity|].
  simpl. rewrite help_field_formats.
  destruct (handleDescription (description c)); [|reflexivity].
  unfold sbind at 1. destruct (array_map help_field rest) as [[fs | e] t];
    simpl in *; subst; reflexivity.
Qed.

(** One group, for a logged-in client. *)
Lemma help_group_logged_in (groups : Groups) (u : ClientUser) (k : string) :
  user st = Some u ->
  help_group bot env st member groups k =
  match get_group k groups with
  | Some cs =>
      match array_map help_field cs with
      | (Normal fields, _) =>
          (Normal tt,
           [EvNewEmbed (group_shell bot env st u k);
            EvSend member (addFields (group_shell bot env st u k) fields)])
      | (Throw e, _) => (Throw e, [EvNewEmbed (group_shell bot env st u k)])
      end
  | None =>
      (Throw (TypeError "Cannot read property 'map' of undefined"),
       [EvNewEmbed (group_shell bot env st u k)])
  end.
Proof.
  intros Hu. unfold help_group, user_tag, MessageEmbed, group_shell.
  rewrite Hu. simpl.
  destruct (get_group k groups) as [cs|]; [|reflexivity].
  pose proof (help_fields_silent cs) as Hs.
  destruct (array_map help_field cs) as [[fs | e] t]; simpl in Hs; subst;
    reflexivity.
Qed.

Lemma help_group_logged_out (groups : Groups) (k : string) :
  user st = None ->
  help_group bot env st member groups k =
  (Throw (TypeError "Cannot read property 'tag' of null"), []).
Proof. intros Hu. unfold help_group, user_tag. now rewrite Hu. Qed.

(** With no argument the script is the loop over the groups that
    [regroup()] returned. *)
Lemma script_body_no_argument :
  script_body bot env st member [] =
  help_all bot env st member (regroup (commands st)).
Proof. reflexivity. Qed.

(** With no argument and a logged-in client, when the description of every
    grouped command formats, the handler displays every group once, in the
    order of [Object.keys]: for each group it builds one embed titled with
    the group name and sends it to the member with one entry per command of
    the group, in the group's order. *)
Theorem help_all_displays_every_group (groups : Groups) (u : ClientUser) :
  user st = Some u ->
  (forall k cs c,
      get_group k groups = Some cs -> In c cs ->
      exists d, handleDescription (description c) = Normal d) ->
  help_all bot env st member groups =
  (Normal tt,
   flat_map (group_display bot env st u member groups) (Object_keys groups)).
Proof.
  intros Hu Hfmt. unfold help_all.
  rewrite (array_map_all_normal _ (fun _ => tt)
             (group_display bot env st u member groups)).
  - unfold sbind, sret. simpl. now rewrite app_nil_r.
  - intros k Hk. rewrite (help_group_logged_in groups u k Hu).
    apply Object_keys_In, get_group_keys in Hk. destruct Hk as [cs Hcs].
    unfold group_display, group_of. rewrite Hcs.
    rewrite (array_map_all_normal help_field
               (fun c => help_entry c (description_text c)) (fun _ => [])).
    + reflexivity.
    + intros c Hc. rewrite help_field_formats. unfold description_text.
      destruct (Hfmt k cs c Hcs Hc) as [d ->]. reflexivity.
Qed.

(** With no argument and a logged-in client, one grouped command whose
    description does not format makes the whole handler throw, and fewer
    messages are sent than there are groups: the display stops at the first
    group that holds such a command. *)
Theorem help_all_stops_at_bad_description (groups : Groups) (u : ClientUser)
        (k : string) (cs : list Command) (c : Command) (e : error) :
  user st = Some u ->
  get_group k groups = Some cs ->
  In c cs ->
  handleDescription (description c) = Throw e ->
  exists e' t,
    help_all bot env st member groups = (Throw e', t) /\
    sends t < length (Object_keys groups).
Proof.
  intros Hu Hcs Hc He.
  assert (Hk : In k (Object_keys groups)).
  { apply Object_keys_In, get_group_keys. eauto. }
  assert (Hthrow : exists e' t,
             help_group bot env st member groups k = (Throw e', t)).
  { rewrite (help_group_logged_in groups u k Hu), Hcs.
    destruct (array_map_some_throw help_field cs c Hc) as [e' [t Ht]].
    - rewrite help_field_formats, He. eauto.
    - rewrite Ht. eauto. }
  destruct (array_map_some_throw _ _ k Hk Hthrow) as [e' [t Ht]].
  exists e', t. unfold help_all. rewrite Ht. split; [reflexivity|].
  pose proof (array_map_counts (help_group bot env st member groups)
                               (Object_keys groups)) as Hcount.
  rewrite Ht in Hcount. apply Hcount.
  intros k'. rewrite (help_group_logged_in groups u k' Hu).
  destruct (get_group k' groups) as [cs'|]; [|simpl; auto].
  destruct (array_map help_field cs') as [[fs | e0] t0]; simpl; auto.
Qed.

End HelpAll.

(* ================================================================== *)
(** * What the help handler does and never does *)
(* ================================================================== *)

Section Handler.

Variables (bot : Bot) (env : Env) (st : Store) (member : string).

Lemma help_group_counts (groups : Groups) (k : string) :
  match help_group bot env st member groups k with
  | (Normal _, t) => sends t = 1 /\ embeds t = 1
  | (Throw _, t) => sends t = 0 /\ embeds t <= 1
  end.
Proof.
  destruct (user st) as [u|] eqn:Hu.
  - rewrite (help_group_logged_in bot env st member groups u k Hu).
    destruct (get_group k groups) as [cs|]; [|simpl; auto].
    destruct (array_map help_field cs) as [[fs | e] t]; simpl; auto.
  - rewrite (help_group_logged_out bot env st member groups k Hu). simpl. auto.
Qed.

Lemma help_group_events (groups : Groups) (k : string) :
  Forall (display_event member)
         (snd (help_group bot env st member groups k)).
Proof.
  destruct (user st) as [u|] eqn:Hu.
  - rewrite (help_group_logged_in bot env st member groups u k Hu).
    destruct (get_group k groups) as [cs|]; [|repeat constructor].
    destruct (array_map help_field cs) as [[fs | e] t]; repeat constructor.
  - rewrite (help_group_logged_out bot env st member groups k Hu). constructor.
Qed.

Lemma script_one_argument_logged_out cmd rest :
  user st = None ->
  script_body bot env st member (cmd :: rest) =
  (Throw (TypeError "Cannot read property 'tag' of null"), []).
Proof. intros Hu. unfold script_body, user_tag. now rewrite Hu. Qed.

(** Whatever the arguments and whoever is logged in, the body of the help
    handler only constructs embeds and sends messages to the member who
    asked.  It never sends more messages than it has constructed embeds and
    leaves at most one constructed embed unsent; with an argument it sends
    at most one message. *)
Theorem script_only_displays (args : list string) :
  Forall (display_event member) (body (script bot env st member args)) /\
  sends (body (script bot env st member args)) <=
    embeds (body (script bot env st member args)) /\
  embeds (body (script bot env st member args)) <=
    sends (body (script bot env st member args)) + 1 /\
  (args <> [] -> sends (body (script bot env st member args)) <= 1).
Proof.
  unfold script. destruct args as [| cmd rest].
  - rewrite script_body_no_argument. unfold help_all.
    pose proof (array_map_counts
                  (help_group bot env st member (regroup (commands st)))
                  (Object_keys (regroup (commands st)))
                  (help_group_counts (regroup (commands st)))) as Hc.
    pose proof (array_map_Forall
                  (help_group bot env st member (regroup (commands st)))
                  (display_event member)
                  (Object_keys (regroup (commands st)))
                  (help_group_events (regroup (commands st)))) as Hf.
    destruct (array_map _ _) as [[us | e] t]; unfold sbind, sret; simpl in *;
      rewrite ?app_nil_r; repeat split; try lia; try exact Hf;
      intros H; congruence.
  - destruct (user st) as [u|] eqn:Hu.
    + rewrite (script_one_argument bot env st member cmd rest u Hu).
      destruct (find_command cmd (commands st)) as [c|];
        [destruct (handleDescription (description c))|];
        simpl; repeat split; repeat constructor.
    + rewrite (script_one_argument_logged_out cmd rest Hu).
      simpl. repeat split; repeat constructor.
Qed.

(** On a client nobody is logged in on, the handler with an argument is
    rejected with a [TypeError] on reading [Bot.user.tag], before any embed
    is built; without an argument the same happens as soon as there is one
    group, and with no group at all the handler resolves having done
    nothing. *)
Theorem help_logged_out :
  user st = None ->
  (forall cmd rest,
      script bot env st member (cmd :: rest) =
      {| outcome := Rejected (TypeError "Cannot read property 'tag' of null");
         body := []; later := [] |}) /\
  (forall groups,
      help_all bot env st member groups =
      match Object_keys groups with
      | [] => (Normal tt, [])
      | _ :: _ => (Throw (TypeError "Cannot read property 'tag' of null"), [])
      end).
Proof.
  intros Hu. split.
  - intros cmd rest. unfold script.
    now rewrite (script_one_argument_logged_out cmd rest Hu).
  - intros groups. unfold help_all.
    destruct (Object_keys groups) as [| k ks]; [reflexivity|].
    simpl. now rewrite (help_group_logged_out bot env st member groups k Hu).
Qed.

(** With an argument, whatever message is sent shows one registered
    command, the first whose aliases contain the first argument: the embed is
    the one built on line 28 with exactly one entry, that command's.  The
    arguments after the first play no part. *)
Theorem help_shows_only_a_match (cmd : string) (rest : list string)
        (content : string) (embed : Embed) :
  In (EvSend content embed) (body (script bot env st member (cmd :: rest))) ->
  script bot env st member (cmd :: rest) = script bot env st member [cmd] /\
  exists u c d before after,
    user st = Some u /\
    commands st = before ++ c :: after /\
    In cmd (alias c) /\
    (forall c', In c' before -> ~ In cmd (alias c')) /\
    handleDescription (description c) = Normal d /\
    content = member /\
    embed = addFields (help_shell bot env st u) [help_entry c d] /\
    embed_fields embed = [help_entry c d].
Proof.
  intros Hin. split; [reflexivity|].
  unfold script in Hin.
  destruct (user st) as [u|] eqn:Hu.
  - rewrite (script_one_argument bot env st member cmd rest u Hu) in Hin.
    destruct (find_command cmd (commands st)) as [c|] eqn:Hf.
    + destruct (handleDescription (description c)) as [d | e] eqn:Hd;
        simpl in Hin.
      * destruct Hin as [Hin | [Hin | []]]; [discriminate|].
        inversion Hin; subst.
        destruct (find_command_first_hit cmd (commands st) c Hf)
          as (Hcarry & before & after & Heq & Hb).
        exists u, c, d, before, after. repeat split; auto.
        unfold addFields, help_shell, with_defaults. rewrite Hu. reflexivity.
      * destruct Hin as [Hin | []]. discriminate.
    + simpl in Hin. destruct Hin as [Hin | []]. discriminate.
  - rewrite (script_one_argument_logged_out cmd rest Hu) in Hin.
    destruct Hin.
Qed.

(** Every ['error'] event the handler's reactions emit carries the error of
    a message of the body whose [send] was rejected; and when no [send] of
    the body is rejected, the reactions do nothing. *)
Theorem help_reports_only_rejected_sends (args : list string) :
  (forall e,
      In (EvEmit "error" (PError e)) (later (script bot env st member args)) ->
      exists content embed,
        In (EvSend content embed) (body (script bot env st member args)) /\
        channel_send env content embed = Rejected e) /\
  ((forall content embed e,
       In (EvSend content embed) (body (script bot env st member args)) ->
       channel_send env content embed <> Rejected e) ->
   later (script bot env st member args) = []).
Proof.
  unfold script. destruct (script_body bot env st member args) as [c t].
  simpl. split.
  - intros e Hin. apply in_flat_map in Hin. destruct Hin as [ev [Hev Hin]].
    destruct ev; simpl in Hin; try contradiction.
    destruct (channel_send env content embed) as [u | e0 |] eqn:Hs;
      try contradiction.
    exists content, embed. split; [exact Hev|].
    unfold handleError, call_emit in Hin.
    destruct (emit bot) as [em|]; simpl in Hin.
    + destruct (emit_result em "error" (PError e0)); simpl in Hin;
        destruct Hin as [Hin | Hin]; try (inversion Hin; subst; exact Hs);
        try contradiction.
      destruct Hin as [Hin | []]. discriminate.
    + destruct Hin as [Hin | []]. discriminate.
  - intros Hnone. induction t as [| ev rest IH]; [reflexivity|].
    simpl. rewrite IH by (intros ? ? ? Hin; apply Hnone; now right).
    rewrite app_nil_r. destruct ev; try reflexivity. simpl.
    destruct (channel_send env content embed) as [u | e0 |] eqn:Hs;
      try reflexivity.
    exfalso. apply (Hnone content embed e0); [now left | exact Hs].
Qed.

End Handler.

(* ================================================================== *)
(** * The properties above on the fixtures *)
(* ================================================================== *)


Lemma connect_announces_only_when_ready_witness :
  exists before,
    [attempt (Fixture.bot (Some "botdb") []) "botdb"; announce] =
    before ++ [announce].
Proof.
  apply (connect_announces_only_when_ready
           (Fixture.bot (Some "botdb") []) Fixture.env_ok constructed
           (Resolved (Some {| readyState := 1; opens := true |}))
           (with_db constructed {| readyState := 1; opens := true |})
           [attempt (Fixture.bot (Some "botdb") []) "botdb"; announce]
           announce eq_refl).
  - simpl. auto.
  - reflexivity.
Defined.

Lemma login_single_database_attempt_witness :
  exists tail,
    snd (login (Fixture.bot (Some "botdb") [Fixture.quiet "a"])
               Fixture.env_ok "token" constructed) =
      EvMongoConnect "mongodb://localhost:27017/botdb" true true :: tail /\
    forall ev', In ev' tail -> is_mongo_connect ev' = false.
Proof.
  destruct (login_single_database_attempt
              {| option_dev := None; option_prefix := None;
                 option_dbname := Some "botdb" |}
              (Some Fixture.listening) [Fixture.quiet "a"]
              Fixture.env_ok "token" constructed _ _ _
              (EvMongoConnect "mongodb://localhost:27017/botdb" true true)
              eq_refl (or_introl eq_refl) eq_refl)
    as (n & tail & _ & _ & _ & Heq & Htail).
  exists tail. split; [exact Heq | exact Htail].
Defined.

Lemma login_waits_for_open_witness :
  login (Fixture.bot (Some "botdb") [Fixture.quiet "a"]) Sample.env_stalled
        "token" constructed =
  (Pending,
   {| commands := []; db := Some {| readyState := 2; opens := false |};
      user := None |},
   [EvMongoConnect "mongodb://localhost:27017/botdb" true true; EvAwaitOpen]).
Proof.
  apply (login_waits_for_open
           (Fixture.bot (Some "botdb") [Fixture.quiet "a"]) Sample.env_stalled
           "token" constructed "botdb" {| readyState := 2; opens := false |}).
  - reflexivity.
  - discriminate.
  - reflexivity.
  - reflexivity.
Defined.

Lemma help_all_displays_every_group_witness :
  help_all (Fixture.bot None []) Fixture.env_ok (Fixture.store []) "@member"
           Sample.groups =
  (Normal tt,
   group_display (Fixture.bot None []) Fixture.env_ok (Fixture.store [])
                 Fixture.account "@member" Sample.groups "help" ++
   group_display (Fixture.bot None []) Fixture.env_ok (Fixture.store [])
                 Fixture.account "@member" Sample.groups "util").
Proof.
  apply (help_all_displays_every_group
           (Fixture.bot None []) Fixture.env_ok (Fixture.store []) "@member"
           Sample.groups Fixture.account eq_refl).
  intros k cs c Hcs Hc. unfold Sample.groups in Hcs. simpl in Hcs.
  destruct (String.eqb k "help"); [|destruct (String.eqb k "util")];
    inversion Hcs; subst; simpl in Hc;
    repeat (destruct Hc as [<- | Hc]; [eexists; reflexivity|]);
    destruct Hc.
Defined.

Lemma help_all_stops_at_bad_description_witness :
  exists e' t,
    help_all (Fixture.bot None []) Fixture.env_ok (Fixture.store []) "@member"
             Sample.groups_broken = (Throw e', t) /\
    sends t < 2.
Proof.
  apply (help_all_stops_at_bad_description
           (Fixture.bot None []) Fixture.env_ok (Fixture.store []) "@member"
           Sample.groups_broken Fixture.account "util"
           [Fixture.Ping; Fixture.Broken] Fixture.Broken
           (TypeError "Cannot read property 'length' of null")).
  - reflexivity.
  - reflexivity.
  - simpl. auto.
  - reflexivity.
Defined.

Lemma script_only_displays_witness :
  sends (body (script (Fixture.bot None []) Fixture.env_ok
                      (Fixture.store [Fixture.Help; Fixture.Ping])
                      "@member" ["p"; "q"])) <= 1.
Proof.
  apply (script_only_displays (Fixture.bot None []) Fixture.env_ok
                              (Fixture.store [Fixture.Help; Fixture.Ping])
                              "@member" ["p"; "q"]).
  discriminate.
Defined.

Lemma help_logged_out_witness :
  script (Fixture.bot None []) Fixture.env_ok
         (Sample.logged_out [Fixture.Help]) "@member" ["h"] =
  {| outcome := Rejected (TypeError "Cannot read property 'tag' of null");
     body := []; later := [] |}.
Proof.
  apply (help_logged_out (Fixture.bot None []) Fixture.env_ok
                         (Sample.logged_out [Fixture.Help]) "@member").
  reflexivity.
Defined.

Lemma help_shows_only_a_match_witness :
  exists c d,
    In c [Fixture.Help; Fixture.Ping] /\
    In "p" (alias c) /\
    handleDescription (description c) = Normal d.
Proof.
  destruct (help_shows_only_a_match
              (Fixture.bot None []) Fixture.env_ok
              (Fixture.store [Fixture.Help; Fixture.Ping]) "@member" "p" ["q"]
              "@member"
              (addFields (help_shell (Fixture.bot None []) Fixture.env_ok
                                     (Fixture.store [Fixture.Help; Fixture.Ping])
                                     Fixture.account)
                         [help_entry Fixture.Ping "pong"])
              (or_intror (or_introl eq_refl)))
    as [_ (u & c & d & before & after & _ & Hreg & Hcarry & _ & Hd & _)].
  exists c, d. split; [|split; assumption].
  simpl in Hreg. rewrite Hreg. apply in_or_app. right. now left.
Defined.

Lemma help_reports_only_rejected_sends_witness :
  (exists content embed,
      In (EvSend content embed)
         (body (script (Fixture.bot None []) Fixture.env_down
                       (Fixture.store [Fixture.Help; Fixture.Ping])
                       "@member" ["p"])) /\
      channel_send Fixture.env_down content embed =
        Rejected (Error "Missing Permissions")) /\
  later (script (Fixture.bot None []) Fixture.env_ok
                (Fixture.store [Fixture.Help; Fixture.Ping])
                "@member" ["p"]) = [].
Proof.
  split.
  - apply (help_reports_only_rejected_sends
             (Fixture.bot None []) Fixture.env_down
             (Fixture.store [Fixture.Help; Fixture.Ping]) "@member" ["p"]).
    simpl. auto.
  - apply (help_reports_only_rejected_sends
             (Fixture.bot None []) Fixture.env_ok
             (Fixture.store [Fixture.Help; Fixture.Ping]) "@member" ["p"]).
    intros content embed e _. discriminate.
Defined.

(* ================================================================== *)
(** * The order of the steps of [login] *)
(* ================================================================== *)

Section LoginOrder.

Variables (bot : Bot) (env : Env).

(** A configured database is contacted, first of all. *)
Lemma connect_contacts st n r st' t :
  dbname bot = Some n -> n <> "" ->
  connect bot env st = (r, st', t) ->
  exists rest, t = attempt bot n :: rest.
Proof.
  intros Hdb Hn H. rewrite (connect_configured bot env st n Hdb Hn) in H.
  destruct (mongoose_connect env (mongo_url n)) as [c | e |];
    [| inversion H; subst; eexists; reflexivity ..].
  cbv zeta in H.
  destruct (ready c);
    [| inversion H; subst; eexists; reflexivity].
  destruct (Z.eqb (readyState c) 1);
    (destruct (emit bot) as [em|];
     [destruct (emit_result em "debug"
                            (PText "[DiscordBot] Mongodb connected"))|]);
    inversion H; subst; eexists; reflexivity.
Qed.

(** C1: every [login] runs [connect] first, from the store it is given,
    and a configured database is then contacted before anything else (and
    only a configured one).  If [connect] resolves, the modules' [init] pass
    runs next, from the store [connect] left; if that resolves, every [init]
    hook was called and resolved and the [start] pass runs, from the store
    the [init] pass left; if that resolves too, every [start] hook was
    called and resolved, the transport is called once with the token, and
    what it answers is what [login] answers.  A step that is rejected or
    never settles ends [login] there with that outcome: the later steps
    leave no event.  The trace of [login] is the traces of the four steps
    one after the other, each made of that step's events only. *)
Theorem login_order token st r st' t :
  login bot env token st = (r, st', t) ->
  exists r1 st1 t_db t_init t_start t_auth,
    connect bot env st = (r1, st1, t_db) /\
    t = t_db ++ t_init ++ t_start ++ t_auth /\
    Forall (fun ev => db_event ev = true) t_db /\
    Forall (fun ev => hook_event Init ev = true) t_init /\
    Forall (fun ev => hook_event Start ev = true) t_start /\
    Forall (fun ev => auth_event ev = true) t_auth /\
    (t_db <> [] -> truthy (string_or_null (dbname bot)) = true) /\
    (forall n, dbname bot = Some n -> n <> "" ->
               exists rest, t_db = attempt bot n :: rest) /\
    match r1 with
    | Resolved _ =>
        exists r2 st2,
          Modules_init bot st1 = (r2, st2, t_init) /\
          match r2 with
          | Resolved _ =>
              t_init = flat_map (hook_ok Init) (modules bot) /\
              exists r3,
                Modules_start bot st2 = (r3, st', t_start) /\
                match r3 with
                | Resolved _ =>
                    t_start = flat_map (hook_ok Start) (modules bot) /\
                    t_auth = [EvTransportLogin token] /\
                    r = super_login env token
                | Rejected e => t_auth = [] /\ r = Rejected e
                | Pending => t_auth = [] /\ r = Pending
                end
          | Rejected e =>
              t_start = [] /\ t_auth = [] /\ r = Rejected e /\ st' = st2
          | Pending =>
              t_start = [] /\ t_auth = [] /\ r = Pending /\ st' = st2
          end
    | Rejected e =>
        t_init = [] /\ t_start = [] /\ t_auth = [] /\
        r = Rejected e /\ st' = st1
    | Pending =>
        t_init = [] /\ t_start = [] /\ t_auth = [] /\
        r = Pending /\ st' = st1
    end.
Proof.
  intros H. rewrite login_unfold in H.
  destruct (connect bot env st) as [[r1 st1] t_db] eqn:Hc.
  destruct (connect_events bot env _ _ _ _ Hc) as [Fdb Hdb].
  assert (Hfirst : forall n, dbname bot = Some n -> n <> "" ->
                             exists rest, t_db = attempt bot n :: rest).
  { intros n Hn Hne. exact (connect_contacts st n _ _ _ Hn Hne Hc). }
  exists r1, st1, t_db.
  destruct r1 as [v | e1 |].
  - destruct (Modules_init bot st1) as [[r2 st2] t_init] eqn:Hi.
    destruct (run_hooks_events _ _ _ _ _ _ Hi) as [Fi Ri].
    destruct r2 as [u2 | e2 |].
    + destruct (Modules_start bot st2) as [[r3 st3] t_start] eqn:Hs.
      destruct (run_hooks_events _ _ _ _ _ _ Hs) as [Fs Rs].
      destruct r3 as [u3 | e3 |]; inversion H; subst.
      * exists t_init, t_start, [EvTransportLogin token].
        repeat (split; [first [reflexivity | assumption
                               | repeat constructor]|]).
        exists (Resolved u2), st2. split; [first [reflexivity | exact Hi]|].
        split; [exact (Ri u2 eq_refl)|].
        exists (Resolved u3). split; [first [reflexivity | exact Hs]|].
        split; [exact (Rs u3 eq_refl)|]. split; reflexivity.
      * exists t_init, t_start, []. rewrite app_nil_r.
        repeat (split; [first [reflexivity | assumption | constructor]|]).
        exists (Resolved u2), st2. split; [first [reflexivity | exact Hi]|].
        split; [exact (Ri u2 eq_refl)|].
        exists (Rejected e3). split; [first [reflexivity | exact Hs]|]. split; reflexivity.
      * exists t_init, t_start, []. rewrite app_nil_r.
        repeat (split; [first [reflexivity | assumption | constructor]|]).
        exists (Resolved u2), st2. split; [first [reflexivity | exact Hi]|].
        split; [exact (Ri u2 eq_refl)|].
        exists Pending. split; [first [reflexivity | exact Hs]|]. split; reflexivity.
    + inversion H; subst. exists t_init, [], []. rewrite app_nil_r.
      repeat (split; [first [reflexivity | assumption | constructor]|]).
      exists (Rejected e2), st'. split; [first [reflexivity | exact Hi]|]. repeat split.
    + inversion H; subst. exists t_init, [], []. rewrite app_nil_r.
      repeat (split; [first [reflexivity | assumption | constructor]|]).
      exists Pending, st'. split; [first [reflexivity | exact Hi]|]. repeat split.
  - inversion H; subst. exists [], [], []. rewrite app_nil_r.
    repeat (split; [first [reflexivity | assumption | constructor]|]).
    repeat split.
  - inversion H; subst. exists [], [], []. rewrite app_nil_r.
    repeat (split; [first [reflexivity | assumption | constructor]|]).
    repeat split.
Qed.

End LoginOrder.

Lemma login_order_witness :
  exists t_db t_init t_start,
    snd (login (Fixture.bot (Some "botdb") [Fixture.quiet "a"])
               Fixture.env_ok "token" constructed) =
      t_db ++ t_init ++ t_start ++ [EvTransportLogin "token"] /\
    (exists rest,
        t_db = attempt (Fixture.bot (Some "botdb") [Fixture.quiet "a"])
                       "botdb" :: rest) /\
    t_init = [EvHookCall Init "a"; EvHookResolved Init "a"] /\
    t_start = [EvHookCall Start "a"; EvHookResolved Start "a"] /\
    fst (fst (login (Fixture.bot (Some "botdb") [Fixture.quiet "a"])
                    Fixture.env_ok "token" constructed)) =
      super_login Fixture.env_ok "token".
Proof.
  destruct (login_order (Fixture.bot (Some "botdb") [Fixture.quiet "a"])
                        Fixture.env_ok "token" constructed _ _ _ eq_refl)
    as (r1 & st1 & t_db & t_init & t_start & t_auth & Hc & Heq & _ & _ & _ & _
        & _ & Hfirst & Hsteps).
  vm_compute in Hc. inversion Hc; subst r1 st1 t_db.
  destruct Hsteps as (r2 & st2 & Hi & Hrest).
  vm_compute in Hi. inversion Hi; subst r2 st2 t_init.
  destruct Hrest as (_ & r3 & Hs & Hlast).
  vm_compute in Hs. inversion Hs; subst r3 t_start.
  destruct Hlast as (_ & -> & Hr).
  eexists _, _, _. split; [reflexivity|].
  split; [apply (Hfirst "botdb"); [reflexivity | discriminate]|].
  split; [reflexivity|]. split; [reflexivity|]. exact Hr.
Defined.
